(** * axidraw-font: the dual-mode plotter and the stroke-font text layout

    A shallow embedding of [dual_plotter.py] and [dual_text_lib.py].

    Modelling conventions.
    - A Python [float] is a real number ([R]): arithmetic is exact, so
      rounding, infinities and NaN are outside the model.  [math.hypot] is
      the Euclidean norm.
    - A Python [str] is a [string] whose characters are code points below
      256 (Latin-1).  [str.isspace], [str.lower] and [str.upper] are given
      on that range.
    - An object mutated through [self] is a record passed from call to call.
      What a method does to the outside (the AxiDraw driver, the console,
      the file system) is appended, in order, to the [world] field.
    - Answers of the environment (what the driver's [connect] returns,
      whether the operator interrupts a prompt) are arguments of the call.  *)

From Stdlib Require Import Reals Lra List String Ascii ZArith Bool Lia.
From Stdlib Require DecimalString.
Import ListNotations.

Open Scope string_scope.
Open Scope R_scope.

(* ================================================================== *)
(** * Python built-ins used by the two modules *)
(* ================================================================== *)

(** [math.hypot(dx, dy)] *)
Definition hypot (dx dy : R) : R := sqrt (dx * dx + dy * dy).

(** [round(x)], to the nearest integer, ties to the even one. *)
Definition py_round (x : R) : Z :=
  let f := Zfloor x in
  let r := x - IZR f in
  if Rlt_dec r (1 / 2) then f
  else if Rgt_dec r (1 / 2) then (f + 1)%Z
  else if Z.even f then f else (f + 1)%Z.

(** [round(x, 3)] *)
Definition round3 (x : R) : R := IZR (py_round (x * 1000)) / 1000.

(** [max(a, b)] on integers and on floats *)
Definition py_max (a b : R) : R := if Rlt_dec a b then b else a.

(** [c.isspace()] for a code point below 256: TAB..CR, FS..US, space,
    NEL and the no-break space. *)
Definition isspace (c : ascii) : bool :=
  let n := nat_of_ascii c in
  ((9 <=? n) && (n <=? 13) || (28 <=? n) && (n <=? 32)
   || (n =? 133) || (n =? 160))%nat.

(** [c.lower()] on a code point below 256: the ASCII capitals and the
    Latin-1 capitals (all of 192..222 but the multiplication sign). *)
Definition lower_char (c : ascii) : ascii :=
  let n := nat_of_ascii c in
  if ((65 <=? n) && (n <=? 90)
      || (192 <=? n) && (n <=? 222) && negb (n =? 215))%nat
  then ascii_of_nat (n + 32) else c.

(** [c.upper()] on a code point below 256: the ASCII small letters, the
    Latin-1 small letters (all of 224..254 but the division sign), and the
    sharp s, which becomes two letters.  The micro sign and the y with
    diaeresis have their capitals above 255; they are left as they are. *)
Definition upper_char (c : ascii) : string :=
  let n := nat_of_ascii c in
  if (n =? 223)%nat then "SS"
  else if ((97 <=? n) && (n <=? 122)
           || (224 <=? n) && (n <=? 254) && negb (n =? 247))%nat
  then String (ascii_of_nat (n - 32)) EmptyString
  else String c EmptyString.

(** [s.upper()] *)
Fixpoint upper (s : string) : string :=
  match s with
  | EmptyString => EmptyString
  | String c s' => upper_char c ++ upper s'
  end.

(** [s.lstrip()], [s.rstrip()], [s.strip()] *)
Fixpoint lstrip (s : string) : string :=
  match s with
  | EmptyString => EmptyString
  | String c s' => if isspace c then lstrip s' else s
  end.

Fixpoint rstrip (s : string) : string :=
  match s with
  | EmptyString => EmptyString
  | String c s' =>
      match rstrip s' with
      | EmptyString => if isspace c then EmptyString else String c EmptyString
      | t => String c t
      end
  end.

Definition strip (s : string) : string := rstrip (lstrip s).

(** [s.split()]: the maximal runs of non-whitespace characters, in order.
    [cur] is the run being read. *)
Fixpoint split_from (cur : string) (s : string) : list string :=
  match s with
  | EmptyString => match cur with EmptyString => [] | _ => [cur] end
  | String c s' =>
      if isspace c
      then match cur with
           | EmptyString => split_from EmptyString s'
           | _ => cur :: split_from EmptyString s'
           end
      else split_from (cur ++ String c EmptyString) s'
  end.

Definition split (s : string) : list string := split_from EmptyString s.

(** [sep.join(ws)] *)
Fixpoint join (sep : string) (ws : list string) : string :=
  match ws with
  | [] => EmptyString
  | [w] => w
  | w :: rest => w ++ sep ++ join sep rest
  end.

(** [s.replace("'", "\\'")] *)
Fixpoint escape_quotes (s : string) : string :=
  match s with
  | EmptyString => EmptyString
  | String c s' =>
      if Ascii.eqb c "'"%char
      then String "\"%char (String "'"%char (escape_quotes s'))
      else String c (escape_quotes s')
  end.

(** A value handed to a parameter annotated [str]: Python does not check
    the annotation, so anything may arrive. *)
Inductive py_value : Type :=
| PyStr (s : string)
| PyInt (n : Z)
| PyFloat (x : R)
| PyBool (b : bool)
| PyNone.

(* ================================================================== *)
(** * dual_plotter.py: data *)
(* ================================================================== *)

(** [class _Options] *)
Record _Options : Type := mk_Options {
  pen_pos_down : R;
  pen_pos_up : R;
  speed_pendown : R;
  speed_penup : R;
  accel : R
}.

(** [_Options.__init__] *)
Definition _Options_init : _Options :=
  mk_Options 70 20 25 60 30.

Definition rgb : Type := (Z * Z * Z)%type.

(** The class attribute [_COLOR_TABLE], in source order. *)
Definition BLACK : string := "BLACK".

Definition _COLOR_TABLE : list (string * rgb) :=
  [ ("BLACK",   (0, 0, 0));
    ("RED",     (220, 20, 60));
    ("ORANGE",  (255, 165, 0));
    ("YELLOW",  (255, 215, 0));
    ("GREEN",   (34, 139, 34));
    ("CYAN",    (0, 180, 180));
    ("BLUE",    (30, 144, 255));
    ("PURPLE",  (128, 0, 128));
    ("MAGENTA", (255, 0, 255));
    ("GREY",    (200, 200, 200)) ]%Z.

(** [d.get(key)] on a dict given by its items (keys are distinct). *)
Fixpoint dict_get {V : Type} (d : list (string * V)) (key : string)
  : option V :=
  match d with
  | [] => None
  | (k, v) :: d' => if String.eqb k key then Some v else dict_get d' key
  end.

(** [d.get(key, default)] *)
Definition dict_get_default {V : Type} (d : list (string * V))
  (key : string) (default : V) : V :=
  match dict_get d key with
  | Some v => v
  | None => default
  end.

Inductive exception : Type :=
| RuntimeError (msg : string)
| KeyError (key : string).

(** [d[key]], which raises [KeyError] for a missing key. *)
Definition dict_item {V : Type} (d : list (string * V)) (key : string)
  : exception + V :=
  match dict_get d key with
  | Some v => inr v
  | None => inl (KeyError key)
  end.

(** The value of [_COLOR_TABLE[BLACK]] where [__init__] reads it. *)
Definition _COLOR_TABLE_BLACK : rgb :=
  Eval cbv in dict_get_default _COLOR_TABLE BLACK (0, 0, 0)%Z.

(** An entry of [_command_log]: the tuples [("moveto", x, y)],
    [("lineto", x, y)] and [("color", name, None)]. *)
Inductive entry : Type :=
| MoveTo (x y : R)
| LineTo (x y : R)
| ColorChange (name : string).

(** A line of the replay script.  The fixed program text is kept as it
    is; a line built by an f-string keeps the formatted values. *)
Inductive script_line : Type :=
| Text (s : string)
    (* a line without placeholders *)
| SetOption (field : string) (v : R)
    (* "    ad.options.<field> = <v>" *)
| CallMoveTo (x y : R) (inserted : bool)
    (* "    ad.moveto(<x>, <y>)", followed when [inserted] by
       "  # inserted to ensure valid start" *)
| CallLineTo (x y : R)
    (* "    ad.lineto(<x>, <y>)" *)
| CallInput (safe : string).
    (* "    input('Please change the color to <safe>! Press Enter to
       continue...')" *)

(** A segment drawn with [ImageDraw.line]: end points in pixels, fill
    colour and width. *)
Record stroke_px : Type := mk_stroke {
  px_from : Z * Z;
  px_to : Z * Z;
  px_fill : rgb;
  px_width : Z
}.

(** What a call prints. *)
Inductive message : Type :=
| MsgCancelled
    (* "Color change canceled by user (KeyboardInterrupt)." *)
| MsgWroteScript (path : string)
| MsgSavedPng (path : string)
| MsgTravel (inches : R)
| MsgDrawn (inches : R).

(** What a call does to the outside, in the order it happens. *)
Inductive event : Type :=
| DevInteractive
| DevConnect
| DevDisconnect
| DevMoveTo (x y : R)
| DevLineTo (x y : R)
| DevSetOption (field : string) (v : R)
| ConsoleInput (display_name : string)
    (* input("Please change the color to <display_name>! Press Enter to
       continue...") *)
| ConsolePrint (m : message)
| PngSaved (path : string) (size : Z * Z) (strokes : list stroke_px)
    (dpi : Z)
    (* the image, flipped top to bottom, saved with its dpi *)
| OsSystem (cmd : string)
| FileWritten (path : string) (content : list script_line).

(** What [__init__] fixes for the life of the object. *)
Record page : Type := mk_page {
  use_device : bool;
  out_path : string;
  dpi : Z;
  line_px : Z;
  xmin : R;
  ymin : R;
  xmax : R;
  ymax : R;
  W : Z;
  H : Z;
  _py_out_path : string
}.

(** [class DualPlotter]: the instance attributes.  The recorder's
    attributes ([_img], [_called_interactive], [_command_log],
    [_options_snapshot]) exist in image mode only; device mode never reads
    them. *)
Record DualPlotter : Type := mk_plotter {
  geometry : page;
  _pos : option (R * R);
  _pen_distance_in : R;
  _drawn_length_in : R;
  options : _Options;
  _stroke_color_name : string;
  _stroke_rgb : rgb;
  _img : list stroke_px;
  _called_interactive : bool;
  _command_log : list entry;
  _options_snapshot : option _Options;
  world : list event
}.

Definition set_pos (v : option (R * R)) (p : DualPlotter) : DualPlotter :=
  mk_plotter (geometry p) v (_pen_distance_in p) (_drawn_length_in p)
    (options p) (_stroke_color_name p) (_stroke_rgb p) (_img p)
    (_called_interactive p) (_command_log p) (_options_snapshot p) (world p).

Definition set_pen_distance_in (v : R) (p : DualPlotter) : DualPlotter :=
  mk_plotter (geometry p) (_pos p) v (_drawn_length_in p)
    (options p) (_stroke_color_name p) (_stroke_rgb p) (_img p)
    (_called_interactive p) (_command_log p) (_options_snapshot p) (world p).

Definition set_drawn_length_in (v : R) (p : DualPlotter) : DualPlotter :=
  mk_plotter (geometry p) (_pos p) (_pen_distance_in p) v
    (options p) (_stroke_color_name p) (_stroke_rgb p) (_img p)
    (_called_interactive p) (_command_log p) (_options_snapshot p) (world p).

Definition set_options (v : _Options) (p : DualPlotter) : DualPlotter :=
  mk_plotter (geometry p) (_pos p) (_pen_distance_in p) (_drawn_length_in p)
    v (_stroke_color_name p) (_stroke_rgb p) (_img p)
    (_called_interactive p) (_command_log p) (_options_snapshot p) (world p).

Definition set_stroke (name : string) (c : rgb) (p : DualPlotter)
  : DualPlotter :=
  mk_plotter (geometry p) (_pos p) (_pen_distance_in p) (_drawn_length_in p)
    (options p) name c (_img p)
    (_called_interactive p) (_command_log p) (_options_snapshot p) (world p).

Definition set_img (v : list stroke_px) (p : DualPlotter) : DualPlotter :=
  mk_plotter (geometry p) (_pos p) (_pen_distance_in p) (_drawn_length_in p)
    (options p) (_stroke_color_name p) (_stroke_rgb p) v
    (_called_interactive p) (_command_log p) (_options_snapshot p) (world p).

Definition set_called_interactive (v : bool) (p : DualPlotter)
  : DualPlotter :=
  mk_plotter (geometry p) (_pos p) (_pen_distance_in p) (_drawn_length_in p)
    (options p) (_stroke_color_name p) (_stroke_rgb p) (_img p)
    v (_command_log p) (_options_snapshot p) (world p).

Definition set_command_log (v : list entry) (p : DualPlotter)
  : DualPlotter :=
  mk_plotter (geometry p) (_pos p) (_pen_distance_in p) (_drawn_length_in p)
    (options p) (_stroke_color_name p) (_stroke_rgb p) (_img p)
    (_called_interactive p) v (_options_snapshot p) (world p).

Definition set_options_snapshot (v : option _Options) (p : DualPlotter)
  : DualPlotter :=
  mk_plotter (geometry p) (_pos p) (_pen_distance_in p) (_drawn_length_in p)
    (options p) (_stroke_color_name p) (_stroke_rgb p) (_img p)
    (_called_interactive p) (_command_log p) v (world p).

Definition set_world (v : list event) (p : DualPlotter) : DualPlotter :=
  mk_plotter (geometry p) (_pos p) (_pen_distance_in p) (_drawn_length_in p)
    (options p) (_stroke_color_name p) (_stroke_rgb p) (_img p)
    (_called_interactive p) (_command_log p) (_options_snapshot p) v.

(** [self._command_log.append(e)] *)
Definition log_append (e : entry) (p : DualPlotter) : DualPlotter :=
  set_command_log (_command_log p ++ [e]) p.

(** One effect on the outside. *)
Definition emit (e : event) (p : DualPlotter) : DualPlotter :=
  set_world (world p ++ [e]) p.

Definition emit_all (es : list event) (p : DualPlotter) : DualPlotter :=
  set_world (world p ++ es) p.

(* ================================================================== *)
(** * dual_plotter.py: methods *)
(* ================================================================== *)

(** [_apply_options]: the five assignments to [self._dev.options]. *)
Definition _apply_options (p : DualPlotter) : DualPlotter :=
  emit_all
    [ DevSetOption "pen_pos_down" (pen_pos_down (options p));
      DevSetOption "pen_pos_up" (pen_pos_up (options p));
      DevSetOption "speed_pendown" (speed_pendown (options p));
      DevSetOption "speed_penup" (speed_penup (options p));
      DevSetOption "accel" (accel (options p)) ] p.

(** [_snapshot_current_options]: a new dict holding the five values. *)
Definition _snapshot_current_options (p : DualPlotter) : _Options :=
  mk_Options (pen_pos_down (options p)) (pen_pos_up (options p))
    (speed_pendown (options p)) (speed_penup (options p))
    (accel (options p)).

(** The object [__init__] builds when it does not raise.  [timestamp] is
    the module constant [TIMESTAMP_FOR_SESSION]. *)
Definition new_plotter (timestamp : string) (use_device : bool)
  (out_path : string) (dpi : Z) (page_bbox_inches : R * R * R * R)
  (line_px : Z) : DualPlotter :=
  let '(xmin, ymin, xmax, ymax) := page_bbox_inches in
  let w_in := py_max 0 (xmax - xmin) in
  let h_in := py_max 0 (ymax - ymin) in
  let W := Z.max 1 (py_round (w_in * IZR dpi)) in
  let H := Z.max 1 (py_round (h_in * IZR dpi)) in
  let p :=
    mk_plotter
      (mk_page use_device out_path dpi line_px xmin ymin xmax ymax W H
         ("zout/z" ++ timestamp ++ ".py"))
      None 0 0 _Options_init BLACK _COLOR_TABLE_BLACK
      [] false [] None [] in
  if use_device then _apply_options p else p.

(** [DualPlotter.__init__]; [axidraw_imported] tells whether the import
    of [pyaxidraw] succeeded. *)
Definition DualPlotter_init (axidraw_imported : bool) (timestamp : string)
  (use_device : bool) (out_path : string) (dpi : Z)
  (page_bbox_inches : R * R * R * R) (line_px : Z)
  : exception + DualPlotter :=
  if use_device && negb axidraw_imported
  then inl (RuntimeError
              "pyaxidraw not available but use_device=True was requested.")
  else inr (new_plotter timestamp use_device out_path dpi page_bbox_inches
              line_px).

(** The defaults of [__init__]. *)
Definition default_out_path (timestamp : string) : string :=
  "zout/z" ++ timestamp ++ ".png".

Definition default_page_bbox_inches : R * R * R * R := (0, 0, 11.69, 8.27).

Definition default_plotter (timestamp : string) (use_device : bool)
  : DualPlotter :=
  new_plotter timestamp use_device (default_out_path timestamp) 100
    default_page_bbox_inches 1.

(** [_to_px] *)
Definition _to_px (p : DualPlotter) (pt : R * R) : Z * Z :=
  let '(x_in, y_in) := pt in
  (py_round ((x_in - xmin (geometry p)) * IZR (dpi (geometry p))),
   py_round ((ymax (geometry p) - y_in) * IZR (dpi (geometry p)))).

(** [_segment_len] *)
Definition _segment_len (a b : R * R) : R :=
  hypot (fst b - fst a) (snd b - snd a).

(** [_rgb_for_name] *)
Definition _rgb_for_name (color_like : py_value) : exception + rgb :=
  match color_like with
  | PyStr s =>
      let name := upper (strip s) in
      match dict_item _COLOR_TABLE BLACK with
      | inl e => inl e
      | inr black => inr (dict_get_default _COLOR_TABLE name black)
      end
  | _ => dict_item _COLOR_TABLE BLACK
  end.

(** [interactive] *)
Definition interactive (p : DualPlotter) : DualPlotter :=
  if use_device (geometry p)
  then _apply_options (emit DevInteractive p)
  else set_called_interactive true p.

(** [connect]; [driver_answer] is what the driver's [connect] returns. *)
Definition connect (driver_answer : bool) (p : DualPlotter)
  : bool * DualPlotter :=
  if use_device (geometry p)
  then (driver_answer, emit DevConnect p)
  else
    match _options_snapshot p with
    | None =>
        (true, set_options_snapshot (Some (_snapshot_current_options p)) p)
    | Some _ => (true, p)
    end.

(** [moveto] *)
Definition moveto (x y : R) (p : DualPlotter) : DualPlotter :=
  let p1 :=
    match _pos p with
    | Some a =>
        set_pen_distance_in (_pen_distance_in p + _segment_len a (x, y)) p
    | None => p
    end in
  let p2 := set_pos (Some (x, y)) p1 in
  if use_device (geometry p2)
  then emit (DevMoveTo x y) p2
  else log_append (MoveTo x y) p2.

(** [lineto] *)
Definition lineto (x y : R) (p : DualPlotter) : DualPlotter :=
  match _pos p with
  | None =>
      let p1 := set_pos (Some (x, y)) p in
      if use_device (geometry p1)
      then emit (DevLineTo x y) p1
      else log_append (LineTo x y) p1
  | Some a =>
      let seg_len := _segment_len a (x, y) in
      let p1 := set_pen_distance_in (_pen_distance_in p + seg_len) p in
      let p2 := set_drawn_length_in (_drawn_length_in p1 + seg_len) p1 in
      let p3 :=
        if use_device (geometry p2)
        then emit (DevLineTo x y) p2
        else
          let p0 := _to_px p2 a in
          let p1' := _to_px p2 (x, y) in
          log_append (LineTo x y)
            (set_img
               (_img p2 ++ [mk_stroke p0 p1' (_stroke_rgb p2)
                              (line_px (geometry p2))]) p2) in
      set_pos (Some (x, y)) p3
  end.

(** [confirmColorChange]; [interrupted] tells whether the operator answers
    the prompt with a [KeyboardInterrupt].  An exception of [_rgb_for_name]
    would leave the method after the park move. *)
Definition confirmColorChange (new_color : string) (interrupted : bool)
  (p : DualPlotter) : DualPlotter :=
  let p1 := moveto 0 0 p in
  let display_name := new_color in
  if use_device (geometry p1)
  then
    let p2 := emit (ConsoleInput display_name) p1 in
    if interrupted then emit (ConsolePrint MsgCancelled) p2 else p2
  else
    match _rgb_for_name (PyStr display_name) with
    | inl _ => p1
    | inr rgb =>
        let p2 := set_stroke display_name rgb p1 in
        log_append (ColorChange display_name) p2
    end.

(** [outlinePage] *)
Definition outlinePage (do_dots : bool) (p : DualPlotter) : DualPlotter :=
  let g := geometry p in
  let dot x y (q : DualPlotter) := if do_dots then lineto x y q else q in
  let p := moveto (xmin g) (ymin g) p in
  let p := dot (xmin g) (ymin g) p in
  let p := moveto (xmin g) (ymax g) p in
  let p := dot (xmin g) (ymax g) p in
  let p := moveto (xmax g) (ymax g) p in
  let p := dot (xmax g) (ymax g) p in
  let p := moveto (xmax g) (ymin g) p in
  let p := dot (xmax g) (ymin g) p in
  moveto (xmin g) (ymin g) p.

(** The lines [_write_replay_script] emits for one log entry.  The log
    holds the three kinds of entries only, so the branch for an
    unrecognized kind is never taken and is left out.  The park move of a
    colour change is the fixed text [ad.moveto(0.0, 0.0)]. *)
Definition script_of_entry (e : entry) : list script_line :=
  match e with
  | MoveTo a b => [CallMoveTo (round3 a) (round3 b) false]
  | LineTo a b => [CallLineTo (round3 a) (round3 b)]
  | ColorChange a =>
      [ Text "    # --- Color change requested ---";
        CallMoveTo 0 0 false;
        CallInput (escape_quotes a) ]
  end.

(** The part of the script between [connect] and [disconnect]. *)
Definition replay_body (log : list entry) : list script_line :=
  match log with
  | [] => [Text "    # (No movements were recorded.)"]
  | _ :: _ =>
      let cmds := log in
      let '(inserted, cmds) :=
        match cmds with
        | LineTo x y :: rest => ([CallMoveTo (round3 x) (round3 y) true], rest)
        | _ => ([], cmds)
        end in
      Text "    # Replay recorded moves (inches) and color changes:"
        :: inserted ++ flat_map script_of_entry cmds
  end.

(** The double quote, for the program text that holds one. *)
Definition dquote : string := String (ascii_of_nat 34) EmptyString.

Definition replay_header (opts : _Options) : list script_line :=
  [ Text "# Auto-generated by DualPlotter (offline recorder)";
    Text "# Replays the captured drawing on a real AxiDraw.";
    Text "from pyaxidraw import axidraw";
    Text EmptyString;
    Text "def main():";
    Text "    ad = axidraw.AxiDraw()";
    Text "    ad.interactive()";
    Text "    # Apply recorded options";
    SetOption "pen_pos_down" (pen_pos_down opts);
    SetOption "pen_pos_up" (pen_pos_up opts);
    SetOption "speed_pendown" (speed_pendown opts);
    SetOption "speed_penup" (speed_penup opts);
    SetOption "accel" (accel opts);
    Text EmptyString;
    Text "    if not ad.connect():";
    Text ("        print(" ++ dquote ++ "Could not connect to AxiDraw."
          ++ dquote ++ ")");
    Text "        return";
    Text EmptyString ].

Definition replay_footer : list script_line :=
  [ Text EmptyString;
    Text "    ad.disconnect()";
    Text EmptyString;
    Text ("if __name__ == " ++ dquote ++ "__main__" ++ dquote ++ ":");
    Text "    main()" ].

(** The options the script applies: the snapshot when there is one, the
    current values otherwise. *)
Definition replay_options (p : DualPlotter) : _Options :=
  match _options_snapshot p with
  | Some opts => opts
  | None => _snapshot_current_options p
  end.

Definition replay_script (p : DualPlotter) : list script_line :=
  replay_header (replay_options p)
    ++ replay_body (_command_log p)
    ++ replay_footer.

(** [_write_replay_script] *)
Definition _write_replay_script (p : DualPlotter) : DualPlotter :=
  let p1 :=
    match _options_snapshot p with
    | None => set_options_snapshot (Some (_snapshot_current_options p)) p
    | Some _ => p
    end in
  let path := _py_out_path (geometry p1) in
  emit (ConsolePrint (MsgWroteScript path))
    (emit (FileWritten path (replay_script p1)) p1).

(** [disconnect] *)
Definition disconnect (p : DualPlotter) : DualPlotter :=
  let g := geometry p in
  if use_device g
  then emit DevDisconnect p
  else
    let p1 := emit (PngSaved (out_path g) (W g, H g) (_img p) (dpi g)) p in
    let p2 := emit (OsSystem ("open " ++ out_path g)) p1 in
    let p3 := _write_replay_script p2 in
    emit_all
      [ ConsolePrint (MsgSavedPng (out_path g));
        ConsolePrint (MsgTravel (_pen_distance_in p3));
        ConsolePrint (MsgDrawn (_drawn_length_in p3)) ] p3.

(* ================================================================== *)
(** * Sessions: sequences of calls on one plotter *)
(* ================================================================== *)

(** A positioning call: [moveto(x, y)] or [lineto(x, y)]. *)
Inductive motion : Type :=
| PenUp (x y : R)
| PenDown (x y : R).

Definition do_motion (m : motion) (p : DualPlotter) : DualPlotter :=
  match m with
  | PenUp x y => moveto x y p
  | PenDown x y => lineto x y p
  end.

Definition do_motions (ms : list motion) (p : DualPlotter) : DualPlotter :=
  fold_left (fun q m => do_motion m q) ms p.

(** A call of the public interface, or an assignment of the caller to the
    fields of [ad.options]. *)
Inductive call : Type :=
| Interactive
| Connect (driver_answer : bool)
| Moveto (x y : R)
| Lineto (x y : R)
| ConfirmColorChange (new_color : string) (interrupted : bool)
| OutlinePage (do_dots : bool)
| AssignOptions (o : _Options)
| Disconnect.

Definition do_call (c : call) (p : DualPlotter) : DualPlotter :=
  match c with
  | Interactive => interactive p
  | Connect a => snd (connect a p)
  | Moveto x y => moveto x y p
  | Lineto x y => lineto x y p
  | ConfirmColorChange n i => confirmColorChange n i p
  | OutlinePage d => outlinePage d p
  | AssignOptions o => set_options o p
  | Disconnect => disconnect p
  end.

Definition do_calls (cs : list call) (p : DualPlotter) : DualPlotter :=
  fold_left (fun q c => do_call c q) cs p.

(** The positioning calls [outlinePage] makes. *)
Definition outline_motions (do_dots : bool) (g : page) : list motion :=
  let corner x y :=
    if do_dots then [PenUp x y; PenDown x y] else [PenUp x y] in
  corner (xmin g) (ymin g) ++ corner (xmin g) (ymax g)
    ++ corner (xmax g) (ymax g) ++ corner (xmax g) (ymin g)
    ++ [PenUp (xmin g) (ymin g)].

(* ================================================================== *)
(** * dual_text_lib.py: the plotting capability and the stroke font *)
(* ================================================================== *)

(** What the drawing functions ask of their argument [ad]: a [moveto] and
    a [lineto]. *)
Class Plotting (A : Type) : Type := {
  ad_moveto : R -> R -> A -> A;
  ad_lineto : R -> R -> A -> A
}.

#[export] Instance DualPlotter_Plotting : Plotting DualPlotter := {
  ad_moveto := moveto;
  ad_lineto := lineto
}.

(** [class _RotatingPlotter]: a proxy that rotates every point around a
    pivot before it hands the call on. *)
Record _RotatingPlotter (A : Type) : Type := mk_rotating {
  _ad : A;
  _cx : R;
  _cy : R;
  _cos : R;
  _sin : R
}.

Arguments mk_rotating {A} _ _ _ _ _.
Arguments _ad {A} _.
Arguments _cx {A} _.
Arguments _cy {A} _.
Arguments _cos {A} _.
Arguments _sin {A} _.




Definition _apply {A : Type} (r : _RotatingPlotter A) (x y : R) : R * R :=
  let dx := x - _cx r in
  let dy := y - _cy r in
  (_cos r * dx - _sin r * dy + _cx r, _sin r * dx + _cos r * dy + _cy r).

Definition with_ad {A : Type} (r : _RotatingPlotter A) (a : A)
  : _RotatingPlotter A :=
  mk_rotating a (_cx r) (_cy r) (_cos r) (_sin r).

#[export] Instance Rotating_Plotting {A : Type} `{Plotting A}
  : Plotting (_RotatingPlotter A) := {
  ad_moveto x y r :=
    let '(X, Y) := _apply r x y in with_ad r (ad_moveto X Y (_ad r));
  ad_lineto x y r :=
    let '(X, Y) := _apply r x y in with_ad r (ad_lineto X Y (_ad r))
}.

(** A glyph: the fields ['w'] and ['strokes'] of an entry of [FONT]. *)
Record glyph : Type := mk_glyph {
  glyph_w : R;
  glyph_strokes : list (list (R * R))
}.

(** A one-character string for a code point above 127. *)
Definition latin1 (n : nat) : string := String (ascii_of_nat n) EmptyString.

(** [d[key] = v] *)
Fixpoint dict_set {V : Type} (d : list (string * V)) (key : string) (v : V)
  : list (string * V) :=
  match d with
  | [] => [(key, v)]
  | (k, v') :: d' =>
      if String.eqb k key then (k, v) :: d'
      else (k, v') :: dict_set d' key v
  end.

(** A dict display [{k1: v1, k2: v2, ...}]: the items are stored from left
    to right, a repeated key keeps the last value. *)
Definition dict_display {V : Type} (items : list (string * V))
  : list (string * V) :=
  fold_left (fun d kv => dict_set d (fst kv) (snd kv)) items [].

Definition FONT_items : list (string * glyph) :=
  [
    ("a", mk_glyph 1
        [ [(0, 1); (0.5, 0); (1, 1)];
          [(0.25, 0.5); (0.75, 0.5)] ]);
    ("b", mk_glyph 1
        [ [(0, 0); (0.8, 0); (1, 0.2); (1, 0.5); (0, 0.5)];
          [(0, 0); (0, 1); (1, 1); (1, 0.7); (0.8, 0.5)] ]);
    ("c", mk_glyph 1
        [ [(1, 0); (0.5, 0); (0, 1); (1, 1)] ]);
    ("d", mk_glyph 1
        [ [(0, 0); (0.8, 0); (1, 0.2); (1, 1); (0, 1)];
          [(0.3, 1); (0.3, 0)] ]);
    ("e", mk_glyph 1
        [ [(1, 0); (0, 0); (0, 1); (1, 1)];
          [(0, 0.5); (1, 0.5)] ]);
    ("f", mk_glyph 1
        [ [(1, 0); (0.5, 0); (0, 1)];
          [(0.25, 0.5); (1, 0.5)] ]);
    ("g", mk_glyph 1
        [ [(1, 0); (0.5, 0); (0, 1); (1, 1); (1, 0.5); (0.75, 0.5)] ]);
    ("h", mk_glyph 1
        [ [(0, 0); (0, 1.0)];
          [(0, 0.5); (1, 0.5)];
          [(1, 1); (1, 0)] ]);
    ("i", mk_glyph 1
        [ [(0, 0); (1, 0)];
          [(1, 1); (0, 1)];
          [(0.5, 1); (0.5, 0)] ]);
    ("j", mk_glyph 1
        [ [(0, 0); (1, 0)];
          [(0.5, 0); (1, 0.5); (0, 1); (0, 0.75)] ]);
    ("k", mk_glyph 1
        [ [(0, 0); (0, 1)];
          [(1, 0); (0, 0.5); (1, 1)] ]);
    ("l", mk_glyph 1
        [ [(0, 0); (0, 1); (1, 1)] ]);
    ("m", mk_glyph 1
        [ [(0, 1); (0, 0); (0.5, 0.5); (1, 0); (1, 1)] ]);
    ("n", mk_glyph 1
        [ [(0, 1); (0, 0); (1, 1); (1, 0)] ]);
    ("o", mk_glyph 0.6
        [ [(0, 0); (0.8, 0); (1, 0.2); (1, 1); (0, 1); (0, 0)] ]);
    ("p", mk_glyph 0.6
        [ [(0, 1); (0, 0); (0.8, 0); (1, 0.2); (1, 0.5); (0, 0.5)] ]);
    ("q", mk_glyph 0.6
        [ [(0, 0); (0, 1); (0.5, 1); (1, 0.5); (1, 0.2); (0.8, 0); (0, 0)];
          [(0.5, 0.5); (1, 1)] ]);
    ("r", mk_glyph 0.6
        [ [(0, 1); (0, 0); (0.8, 0); (1, 0.2); (1, 0.5); (0, 0.5); (1, 1)] ]);
    ("w", mk_glyph 0.8
        [ [(0.05, 1.0); (0.2, 0.0); (0.4, 1.0); (0.6, 0.0); (0.75, 1.0)] ]);
    ("s", mk_glyph 0.55
        [ [(1, 0); (0.5, 0); (0.25, 0.5); (1, 0.5); (1, 1); (0, 1)] ]);
    ("t", mk_glyph 1
        [ [(0, 0); (1, 0)];
          [(0.5, 0); (0.5, 1)] ]);
    ("u", mk_glyph 1
        [ [(0, 0); (0, 1); (1, 1); (1, 0)] ]);
    ("v", mk_glyph 1
        [ [(0, 0); (0.5, 1); (1, 0)] ]);
    ("w", mk_glyph 1
        [ [(0, 0); (0.25, 1); (0.5, 0); (0.75, 1); (1, 0)] ]);
    ("x", mk_glyph 1
        [ [(0, 0); (1, 1)];
          [(0, 1); (1, 0)] ]);
    ("y", mk_glyph 1
        [ [(0, 0); (0.5, 0.5); (0.5, 1)];
          [(0.5, 0.5); (1, 0)] ]);
    ("z", mk_glyph 1
        [ [(0, 0); (1, 0); (0, 1); (1, 1)] ]);
    ("1", mk_glyph 1
        [ [(0.25, 0.25); (0.5, 0); (0.5, 1); (0, 1)];
          [(0.5, 1); (1, 1)] ]);
    ("2", mk_glyph 1
        [ [(0, 0); (0.8, 0); (1, 0.2); (1, 0.5); (0, 1); (1, 1)] ]);
    ("3", mk_glyph 1
        [ [(0, 0); (1, 0); (1, 1); (0, 1)];
          [(0, 0.5); (1, 0.5)] ]);
    ("4", mk_glyph 1
        [ [(0, 0); (0, 0.5); (1, 0.5)];
          [(1, 1); (1, 0)] ]);
    ("5", mk_glyph 1
        [ [(0, 1); (1, 1); (1, 0.5); (0, 0.5); (0, 0); (1, 0)] ]);
    ("6", mk_glyph 1
        [ [(0, 0.5); (0, 1); (1, 1); (1, 0.5); (0, 0.5); (0.5, 0); (1, 0)] ]);
    ("7", mk_glyph 1
        [ [(0, 1); (1, 0); (0, 0)] ]);
    ("8", mk_glyph 1
        [ [(0, 0.5); (0, 0); (1, 0); (1, 0.5); (0, 0.5); (0, 1); (1, 1); (1, 0.5)] ]);
    ("9", mk_glyph 1
        [ [(1, 1); (1, 0); (0, 0); (0, 0.5); (1, 0.5)] ]);
    ("0", mk_glyph 1
        [ [(0, 0); (0, 1); (1, 1); (1, 0); (0, 0)];
          [(0, 1); (1, 0)] ]);
    ("-", mk_glyph 1
        [ [(0, 0.5); (1, 0.5)] ]);
    (".", mk_glyph 1
        [ [(0, 1); (0.01, 1)] ]);
    ("!", mk_glyph 1
        [ [(0, 0); (0, 0.75)];
          [(0, 1); (0.01, 1)] ]);
    (",", mk_glyph 1
        [ [(0, 1); (0.2, 0.8)] ]);
    ("?", mk_glyph 1
        [ [(0, 0); (0.8, 0); (1, 0.2); (0.5, 0.5); (0.5, 0.8)];
          [(0.5, 1); (0.51, 1)] ]);
    (dquote, mk_glyph 1
        [ [(0.3, 0); (0.3, 0.3)];
          [(0.7, 0); (0.7, 0.3)] ]);
    ("%", mk_glyph 1
        [ [(0, 0); (0.01, 0)];
          [(1, 0); (0, 1)];
          [(1, 1); (0.99, 1)] ]);
    ("#", mk_glyph 1
        [ [(0.3, 0); (0.3, 1)];
          [(0.7, 0); (0.7, 1)];
          [(0, 0.35); (1, 0.35)];
          [(0, 0.65); (1, 0.65)] ]);
    ("+", mk_glyph 1
        [ [(0, 0.5); (1, 0.5)];
          [(0.5, 0.2); (0.5, 0.8)] ]);
    (latin1 223, mk_glyph 1
        [ [(0, 1); (0, 0); (0.8, 0); (1, 0.2); (1, 0.4); (0, 0.5); (1, 0.6); (1, 0.8); (0.8, 1); (0.5, 1)] ]);
    (latin1 233, mk_glyph 1
        [ [(1, 0); (0, 0); (0, 1); (1, 1)];
          [(0, 0.5); (1, 0.5)];
          [(0.35, (-0.15)); (0.65, (-0.35))] ]);
    (latin1 237, mk_glyph 1
        [ [(0, 0); (1, 0)];
          [(1, 1); (0, 1)];
          [(0.5, 1); (0.5, 0)];
          [(0.35, (-0.15)); (0.65, (-0.35))] ]);
    (" ", mk_glyph 0.35 [])
  ].

Definition FONT : list (string * glyph) := dict_display FONT_items.

(** [FONT['?']] *)
Definition FONT_fallback : glyph :=
  mk_glyph 1
    [ [(0, 0); (0.8, 0); (1, 0.2); (0.5, 0.5); (0.5, 0.8)];
      [(0.5, 1); (0.51, 1)] ].

(** [draw_polyline] *)
Definition draw_polyline {A : Type} `{Plotting A} (ad : A)
  (poly : list (R * R)) (ox oy sx sy : R) : A :=
  match poly with
  | [] => ad
  | (px, py) :: rest =>
      let x0 := ox + px * sx in
      let y0 := oy + py * sy in
      fold_left
        (fun a pt => ad_lineto (ox + fst pt * sx) (oy + snd pt * sy) a)
        rest (ad_moveto x0 y0 ad)
  end.

Definition GLYPH_WIDTH_EM : R := 0.6.

(** [glyph_advance_inches] *)
Definition glyph_advance_inches (height_in letter_spacing_em : R) : R :=
  (GLYPH_WIDTH_EM + letter_spacing_em) * height_in.

(** [space_advance_inches]; [word_spacing_em] is [None] or a number. *)
Definition space_advance_inches (height_in letter_spacing_em : R)
  (word_spacing_em : option R) : R :=
  match word_spacing_em with
  | Some ws => ws * height_in
  | None => glyph_advance_inches height_in letter_spacing_em
  end.

(** [measure_word_width_inches] *)
Definition measure_word_width_inches (word : string)
  (height_in letter_spacing_em : R) : R :=
  match word with
  | EmptyString => 0
  | _ => INR (String.length word)
         * glyph_advance_inches height_in letter_spacing_em
  end.

(** [draw_glyph], the definition in force (the second one of the module,
    which rebinds the name): the advance it returns, and the plotter. *)
Definition draw_glyph {A : Type} `{Plotting A} (ad : A) (ch : string)
  (x y height_in tracking_in : R) : R * A :=
  let g := dict_get_default FONT ch FONT_fallback in
  let width_em := GLYPH_WIDTH_EM in
  let sx := width_em * height_in in
  let sy := height_in in
  (sx + tracking_in,
   fold_left (fun a stroke => draw_polyline a stroke x y sx sy)
     (glyph_strokes g) ad).

(* ================================================================== *)
(** * dual_text_lib.py: lines of text and word wrap *)
(* ================================================================== *)

(** The body of the loop of [draw_text_line] for one character: the new
    cursor and the plotter.  [h] is the scaled height. *)
Definition draw_char {A : Type} `{Plotting A} (baseline_y_in h
  letter_spacing_em : R) (word_spacing_em : option R)
  (st : R * A) (ch : ascii) : R * A :=
  let '(cursor_x, ad) := st in
  let glyph_key := String (lower_char ch) EmptyString in
  let draw :=
    let tracking := letter_spacing_em * h in
    let '(advance, ad') :=
      draw_glyph ad glyph_key cursor_x baseline_y_in h tracking in
    (cursor_x + advance, ad') in
  match word_spacing_em with
  | Some ws =>
      if String.eqb glyph_key " " then (cursor_x + ws * h, ad) else draw
  | None => draw
  end.

(** [draw_text_line], with the value of its local [cursor_x] when the loop
    ends next to the plotter. *)
Definition draw_text_line_cursor {A : Type} `{Plotting A} (ad : A)
  (text : string) (origin_x_in baseline_y_in height_in letter_spacing_em : R)
  (word_spacing_em : option R) (font_scale : R) : R * A :=
  let h := height_in * font_scale in
  fold_left (draw_char baseline_y_in h letter_spacing_em word_spacing_em)
    (list_ascii_of_string text) (origin_x_in, ad).

(** [draw_text_line] *)
Definition draw_text_line {A : Type} `{Plotting A} (ad : A)
  (text : string) (origin_x_in baseline_y_in height_in letter_spacing_em : R)
  (word_spacing_em : option R) (font_scale : R) : A :=
  snd (draw_text_line_cursor ad text origin_x_in baseline_y_in height_in
         letter_spacing_em word_spacing_em font_scale).

(** [a > b] on floats *)
Definition Rgtb (a b : R) : bool := if Rgt_dec a b then true else false.

(** The truth value of a list: [bool(l)] *)
Definition truthy {T : Type} (l : list T) : bool :=
  match l with [] => false | _ :: _ => true end.

(** The state of the wrapping loop: [lines], [current_words],
    [current_width]. *)
Definition wrap_state : Type := (list string * list string * R)%type.

(** The body of the wrapping loop of [draw_wrapped_text] for the word [w]. *)
Definition wrap_step (height_in max_width_in letter_spacing_em : R)
  (word_spacing_em : option R) (st : wrap_state) (w : string) : wrap_state :=
  let '(lines, current_words, current_width) := st in
  let w_width := measure_word_width_inches w height_in letter_spacing_em in
  let add_space := (0 <? List.length current_words)%nat in
  let extra_space_width :=
    if add_space
    then space_advance_inches height_in letter_spacing_em word_spacing_em
    else 0 in
  if truthy current_words
     && Rgtb (current_width + extra_space_width + w_width)
          (max_width_in * 0.6)
  then ((lines ++ [join " " current_words])%list, [w], w_width)
  else
    let current_width :=
      if add_space then current_width + extra_space_width
      else current_width in
    (lines, (current_words ++ [w])%list, current_width + w_width).

(** The list [lines] of [draw_wrapped_text] when the drawing starts, for
    the words [words]. *)
Definition wrap_words (words : list string)
  (height_in max_width_in letter_spacing_em : R)
  (word_spacing_em : option R) : list string :=
  let '(lines, current_words, _) :=
    fold_left
      (wrap_step height_in max_width_in letter_spacing_em word_spacing_em)
      words ([], [], 0) in
  if truthy current_words
  then (lines ++ [join " " current_words])%list
  else lines.

(** The drawing loop of [draw_wrapped_text]: the plotter and [y]. *)
Definition draw_lines {A : Type} `{Plotting A} (ad : A)
  (lines : list string) (origin_x_in baseline_y_in height_in
  letter_spacing_em : R) (word_spacing_em : option R)
  (scaled_line_spacing font_scale : R) : A * R :=
  fold_left
    (fun st line =>
       (draw_text_line (fst st) line origin_x_in (snd st) height_in
          letter_spacing_em word_spacing_em font_scale,
        snd st + scaled_line_spacing))
    lines (ad, baseline_y_in).

(** [draw_wrapped_text]: what it returns ([None], or the number of lines)
    and the plotter.  [line_spacing_in] is [None] or a number. *)
Definition draw_wrapped_text {A : Type} `{Plotting A} (ad : A)
  (text : string) (origin_x_in baseline_y_in height_in max_width_in
  letter_spacing_em : R) (word_spacing_em line_spacing_in : option R)
  (font_scale : R) : option nat * A :=
  let line_spacing_in :=
    match line_spacing_in with
    | None => 1.5 * height_in
    | Some v => v
    end in
  let words := split text in
  if negb (truthy words) then (None, ad)
  else
    let lines :=
      wrap_words words height_in max_width_in letter_spacing_em
        word_spacing_em in
    let scaled_line_spacing := line_spacing_in * font_scale in
    (Some (List.length lines),
     fst (draw_lines ad lines origin_x_in baseline_y_in height_in
            letter_spacing_em word_spacing_em scaled_line_spacing
            font_scale)).


(* ================================================================== *)
(** * What the specification speaks of *)
(* ================================================================== *)

(** The point a positioning call names, and whether the pen is down. *)
Definition target (m : motion) : R * R :=
  match m with
  | PenUp x y => (x, y)
  | PenDown x y => (x, y)
  end.

Definition pen_down (m : motion) : bool :=
  match m with
  | PenUp _ _ => false
  | PenDown _ _ => true
  end.

(** The Euclidean distance between two points. *)
Definition euclidean (a b : R * R) : R :=
  sqrt ((fst b - fst a) ^ 2 + (snd b - snd a) ^ 2).

(** The segments of a pen path that leaves from [prev]: for every call,
    whether it draws, and the distance from the position before it. *)
Fixpoint segments (prev : R * R) (ms : list motion) : list (bool * R) :=
  match ms with
  | [] => []
  | m :: ms' =>
      (pen_down m, euclidean prev (target m)) :: segments (target m) ms'
  end.

(** The segments of a path, from a pen whose position may be unknown: the
    first call then only places the pen. *)
Definition segments_from (start : option (R * R)) (ms : list motion)
  : list (bool * R) :=
  match start with
  | Some a => segments a ms
  | None =>
      match ms with
      | [] => []
      | m :: ms' => segments (target m) ms'
      end
  end.

Definition Rsum (l : list R) : R := fold_right Rplus 0 l.

(** The sum of all segment lengths, and of the lengths of the segments a
    [lineto] made. *)
Definition travel_distance (segs : list (bool * R)) : R :=
  Rsum (map snd segs).

Definition drawn_length (segs : list (bool * R)) : R :=
  Rsum (map snd (filter fst segs)).

(** The number of [moveto] and of [lineto] calls among positioning calls. *)
Definition count_moveto (ms : list motion) : nat :=
  List.length (filter (fun m => negb (pen_down m)) ms).

Definition count_lineto (ms : list motion) : nat :=
  List.length (filter pen_down ms).

(** The log entry and the driver call a positioning call gives rise to. *)
Definition entry_of (m : motion) : entry :=
  match m with
  | PenUp x y => MoveTo x y
  | PenDown x y => LineTo x y
  end.

Definition dev_event_of (m : motion) : event :=
  match m with
  | PenUp x y => DevMoveTo x y
  | PenDown x y => DevLineTo x y
  end.

(** The measured width of a line of words: the widths of the words and one
    space advance between two neighbours. *)
Definition line_width (words : list string)
  (height_in letter_spacing_em : R) (word_spacing_em : option R) : R :=
  Rsum (map (fun w => measure_word_width_inches w height_in letter_spacing_em)
          words)
  + INR (List.length words - 1)
    * space_advance_inches height_in letter_spacing_em word_spacing_em.


(** The colour lookup knows the value: it is a string that, stripped and
    in upper case, is a key of the colour table. *)
Definition known_color (v : py_value) : bool :=
  match v with
  | PyStr s =>
      match dict_get _COLOR_TABLE (upper (strip s)) with
      | Some _ => true
      | None => false
      end
  | _ => false
  end.

(** The replay script replays a first [LineTo(x, y)] behind a [moveto] to
    the same point: the two calls stand next to each other in the script. *)
Definition replays_moveto_then_lineto (script : list script_line) (x y : R)
  : Prop :=
  exists pre post,
    script =
    (pre ++ CallMoveTo (round3 x) (round3 y) true
         :: CallLineTo (round3 x) (round3 y) :: post)%list.

(** A line of the script that calls [lineto]. *)
Definition is_lineto_line (l : script_line) : bool :=
  match l with
  | CallLineTo _ _ => true
  | _ => false
  end.

(** The distance a pen travels to reach the first corner. *)
Definition approach (start : option (R * R)) (corner : R * R) : R :=
  match start with
  | Some a => euclidean a corner
  | None => 0
  end.


(** The session that starts with [lineto(1, 2)] on a new image-mode
    plotter with the default page. *)
Definition line_first_session : DualPlotter :=
  lineto 1 2 (default_plotter "0" false).


Definition fast_options : _Options := mk_Options 80 10 90 95 75.

(** A word as [split] gives it: not empty, and without whitespace. *)
Fixpoint no_whitespace (s : string) : bool :=
  match s with
  | EmptyString => true
  | String c s' => negb (isspace c) && no_whitespace s'
  end.

Definition is_word (w : string) : Prop :=
  w <> EmptyString /\ no_whitespace w = true.

(** A line is within the budget, or it is one word that is too wide. *)
Definition line_fits (height_in max_width_in letter_spacing_em : R)
  (word_spacing_em : option R) (g : list string) : Prop :=
  line_width g height_in letter_spacing_em word_spacing_em
    <= 0.6 * max_width_in
  \/ exists w,
       g = [w]
       /\ measure_word_width_inches w height_in letter_spacing_em
          > 0.6 * max_width_in.

(** What the wrapping loop keeps true: [groups] are the word lists of the
    closed lines and [seen] the words read so far. *)
Definition wrap_loop_invariant (height_in max_width_in letter_spacing_em : R)
  (word_spacing_em : option R) (st : wrap_state)
  (groups : list (list string)) (seen : list string) : Prop :=
  let '(lines, current_words, current_width) := st in
  lines = map (join " ") groups
  /\ (List.concat groups ++ current_words)%list = seen
  /\ Forall
       (fun g =>
          g <> []
          /\ line_fits height_in max_width_in letter_spacing_em
               word_spacing_em g)
       groups
  /\ (current_words = [] -> current_width = 0)
  /\ (current_words <> [] ->
      current_width
      = line_width current_words height_in letter_spacing_em word_spacing_em
      /\ line_fits height_in max_width_in letter_spacing_em word_spacing_em
           current_words).

(** The pen's state: its position, the travel and the drawn length. *)
Definition kinematics : Type := (option (R * R) * R * R)%type.

Definition kin (p : DualPlotter) : kinematics :=
  (_pos p, _pen_distance_in p, _drawn_length_in p).

(** What a positioning call does to the pen's state. *)
Definition kin_motion (m : motion) (k : kinematics) : kinematics :=
  let '(pos, travel, drawn) := k in
  match pos with
  | None => (Some (target m), travel, drawn)
  | Some a =>
      let d := _segment_len a (target m) in
      (Some (target m), travel + d, if pen_down m then drawn + d else drawn)
  end.

Definition kin_motions (ms : list motion) (k : kinematics) : kinematics :=
  fold_left (fun k' m => kin_motion m k') ms k.

(** What a call of the interface does to the pen's state, on the page
    [g]. *)
Definition kin_call (g : page) (c : call) (k : kinematics) : kinematics :=
  match c with
  | Moveto x y => kin_motion (PenUp x y) k
  | Lineto x y => kin_motion (PenDown x y) k
  | ConfirmColorChange _ _ => kin_motion (PenUp 0 0) k
  | OutlinePage d => kin_motions (outline_motions d g) k
  | _ => k
  end.

(** The bounding box of a page. *)
Definition bbox_of (g : page) : R * R * R * R :=
  (xmin g, ymin g, xmax g, ymax g).

(** The kinds of events. *)
Definition is_driver_event (e : event) : bool :=
  match e with
  | DevInteractive | DevConnect | DevDisconnect
  | DevMoveTo _ _ | DevLineTo _ _ | DevSetOption _ _ => true
  | _ => false
  end.

Definition is_artifact_event (e : event) : bool :=
  match e with
  | PngSaved _ _ _ _ | OsSystem _ | FileWritten _ _ => true
  | _ => false
  end.

Definition is_disconnect (c : call) : bool :=
  match c with
  | Disconnect => true
  | _ => false
  end.

(** The attributes of the recorder, which image mode alone has. *)
Definition recorder (p : DualPlotter)
  : list entry * list stroke_px * option _Options * bool * string * rgb :=
  (_command_log p, _img p, _options_snapshot p, _called_interactive p,
   _stroke_color_name p, _stroke_rgb p).

(** The events of one [disconnect] in image mode. *)
Definition disconnect_events (p : DualPlotter) : list event :=
  let g := geometry p in
  [ PngSaved (out_path g) (W g, H g) (_img p) (dpi g);
    OsSystem ("open " ++ out_path g)%string;
    FileWritten (_py_out_path g) (replay_script p);
    ConsolePrint (MsgWroteScript (_py_out_path g));
    ConsolePrint (MsgSavedPng (out_path g));
    ConsolePrint (MsgTravel (_pen_distance_in p));
    ConsolePrint (MsgDrawn (_drawn_length_in p)) ].

(** The number of [lineto] lines of a script. *)
Definition count_lineto_lines (script : list script_line) : nat :=
  List.length (filter is_lineto_line script).

(** The order the accumulators keep. *)
Definition kin_ordered (k : kinematics) : Prop :=
  0 <= snd k <= snd (fst k).

(** The colour [_rgb_for_name] finds for a string. *)
Definition color_of_name (name : string) : rgb :=
  dict_get_default _COLOR_TABLE (upper (strip name)) (0, 0, 0)%Z.

(** The entries of a log that are a [LineTo], but for a leading one. *)
Definition is_LineTo (e : entry) : bool :=
  match e with
  | LineTo _ _ => true
  | _ => false
  end.

Definition replayed_entries (log : list entry) : list entry :=
  match log with
  | LineTo _ _ :: rest => rest
  | _ => log
  end.

(** What holds of the recorder in every image-mode session: the pen has a
    position when something is logged, and the script has a [lineto] line
    for every stroke of the image. *)
Definition recorder_consistent (p : DualPlotter) : Prop :=
  use_device (geometry p) = false
  /\ (_pos p = None <-> _command_log p = [])
  /\ count_lineto_lines (replay_body (_command_log p))
     = List.length (_img p).

(** [l[-1]] when there is one. *)
Definition last_error {T : Type} (l : list T) : option T :=
  match rev l with
  | [] => None
  | x :: _ => Some x
  end.

(** A positioning call on any plotting capability. *)
Definition ad_motion {A : Type} `{Plotting A} (m : motion) (ad : A) : A :=
  match m with
  | PenUp x y => ad_moveto x y ad
  | PenDown x y => ad_lineto x y ad
  end.

Definition ad_motions {A : Type} `{Plotting A} (ms : list motion) (ad : A)
  : A :=
  fold_left (fun a m => ad_motion m a) ms ad.

(** The calls of [draw_polyline]: a [moveto] to the first point and a
    [lineto] to each further one. *)
Definition polyline_motions (poly : list (R * R)) (ox oy sx sy : R)
  : list motion :=
  match poly with
  | [] => []
  | (px, py) :: rest =>
      PenUp (ox + px * sx) (oy + py * sy)
        :: map (fun pt => PenDown (ox + fst pt * sx) (oy + snd pt * sy)) rest
  end.

(** The calls of [draw_glyph]. *)
Definition glyph_motions (ch : string) (x y height_in : R) : list motion :=
  flat_map
    (fun stroke =>
       polyline_motions stroke x y (GLYPH_WIDTH_EM * height_in) height_in)
    (glyph_strokes (dict_get_default FONT ch FONT_fallback)).

(** The calls of the loop of [draw_text_line] over [chars], from the
    cursor [cursor_x], at the scaled height [h]. *)
Fixpoint chars_motions (chars : list ascii) (cursor_x baseline_y_in h
  letter_spacing_em : R) (word_spacing_em : option R) : list motion :=
  match chars with
  | [] => []
  | ch :: rest =>
      let glyph_key := String (lower_char ch) EmptyString in
      let drawn :=
        (glyph_motions glyph_key cursor_x baseline_y_in h
           ++ chars_motions rest
                (cursor_x + (GLYPH_WIDTH_EM * h + letter_spacing_em * h))
                baseline_y_in h letter_spacing_em word_spacing_em)%list in
      match word_spacing_em with
      | Some ws =>
          if String.eqb glyph_key " "
          then chars_motions rest (cursor_x + ws * h) baseline_y_in h
                 letter_spacing_em word_spacing_em
          else drawn
      | None => drawn
      end
  end.

(** The calls of [draw_text_line]. *)
Definition text_motions (text : string) (origin_x_in baseline_y_in
  height_in letter_spacing_em : R) (word_spacing_em : option R)
  (font_scale : R) : list motion :=
  chars_motions (list_ascii_of_string text) origin_x_in baseline_y_in
    (height_in * font_scale) letter_spacing_em word_spacing_em.






(** The positioning calls a log records, and those a script makes when
    its lines run in order. *)
Definition log_motions (log : list entry) : list motion :=
  flat_map
    (fun e =>
       match e with
       | MoveTo x y => [PenUp x y]
       | LineTo x y => [PenDown x y]
       | ColorChange _ => []
       end)
    log.

Definition script_motions (script : list script_line) : list motion :=
  flat_map
    (fun l =>
       match l with
       | CallMoveTo x y _ => [PenUp x y]
       | CallLineTo x y => [PenDown x y]
       | _ => []
       end)
    script.

(** In a log read from the pen position [prev], the pen is at the origin
    at every colour change. *)
Fixpoint parked (prev : option (R * R)) (log : list entry) : Prop :=
  match log with
  | [] => True
  | MoveTo x y :: log' => parked (Some (x, y)) log'
  | LineTo x y :: log' => parked (Some (x, y)) log'
  | ColorChange _ :: log' => prev = Some (0, 0) /\ parked prev log'
  end.

(** The coordinates of an entry have at most three decimals. *)
Definition rounded_entry (e : entry) : Prop :=
  match e with
  | MoveTo x y => round3 x = x /\ round3 y = y
  | LineTo x y => round3 x = x /\ round3 y = y
  | ColorChange _ => True
  end.

(** The pen's state before any call. *)
Definition kin_start : kinematics := (None, 0, 0).

(** What the log of an image-mode session tells: the pen's state is the
    one its entries lead to, and the pen is parked at every colour
    change. *)
Definition log_faithful (p : DualPlotter) : Prop :=
  use_device (geometry p) = false
  /\ kin p = kin_motions (log_motions (_command_log p)) kin_start
  /\ parked None (_command_log p).

(* ================================================================== *)
(** * dual_text_lib.py: the line counter *)
(* ================================================================== *)

(** [str(n)] for an integer *)
Definition str_of_int (n : Z) : string :=
  DecimalString.NilEmpty.string_of_int (Z.to_int n).

(** [_read_int_from_file]: the function returns 0 at once; the code that
    reads the file stands behind the [return] and never runs.  [fs] gives
    the content of the files by path. *)
Definition _read_int_from_file (filename : string)
  (fs : list (string * string)) : Z := 0.

(** [read_line_count] *)
Definition read_line_count (filename : string) (fs : list (string * string))
  : Z :=
  _read_int_from_file filename fs.

(** [increment_line_count]: the value returned and the files after the
    write. *)
Definition increment_line_count (increment_by : Z) (filename : string)
  (fs : list (string * string)) : Z * list (string * string) :=
  let current := _read_int_from_file filename fs in
  let new_val := Z.max 0 (current + increment_by) in
  (new_val, dict_set fs filename (str_of_int new_val)).

(* ================================================================== *)
(** * write_envelopes.py *)
(* ================================================================== *)









(** Every quote of [s] stands right behind a backslash;
    [after_backslash] tells whether [s] itself does. *)
Fixpoint quotes_escaped (after_backslash : bool) (s : string) : bool :=
  match s with
  | EmptyString => true
  | String c s' =>
      if Ascii.eqb c "'"%char
      then after_backslash && quotes_escaped false s'
      else quotes_escaped (Ascii.eqb c "\"%char) s'
  end.

(** The number of occurrences of a character. *)
Fixpoint count_char (c : ascii) (s : string) : nat :=
  match s with
  | EmptyString => 0
  | String c' s' => ((if Ascii.eqb c' c then 1 else 0) + count_char c s')%nat
  end.

(** The positioning calls a call of the interface makes, on the page
    [g]. *)
Definition call_motions (g : page) (c : call) : list motion :=
  match c with
  | Moveto x y => [PenUp x y]
  | Lineto x y => [PenDown x y]
  | ConfirmColorChange _ _ => [PenUp 0 0]
  | OutlinePage d => outline_motions d g
  | _ => []
  end.

(** The positioning calls among the events the driver received. *)
Definition driver_motions (w : list event) : list motion :=
  flat_map
    (fun e =>
       match e with
       | DevMoveTo x y => [PenUp x y]
       | DevLineTo x y => [PenDown x y]
       | _ => []
       end)
    w.

(** The option values the driver was given, in order. *)
Definition driver_options (w : list event) : list (string * R) :=
  flat_map
    (fun e =>
       match e with
       | DevSetOption field v => [(field, v)]
       | _ => []
       end)
    w.

Definition is_interactive (c : call) : bool :=
  match c with
  | Interactive => true
  | _ => false
  end.

(** The five assignments of [_apply_options]. *)
Definition option_assignments (o : _Options) : list (string * R) :=
  [ ("pen_pos_down", pen_pos_down o);
    ("pen_pos_up", pen_pos_up o);
    ("speed_pendown", speed_pendown o);
    ("speed_penup", speed_penup o);
    ("accel", accel o) ].

(** A point of the glyph box: between 0 and 1 across, and between the
    accents below the base line (-0.35) and the cap height 1. *)
Definition in_glyph_box (pt : R * R) : Prop :=
  0 <= fst pt <= 1 /\ -0.35 <= snd pt <= 1.

Definition glyph_in_box (g : glyph) : Prop :=
  Forall (Forall in_glyph_box) (glyph_strokes g).

(* ================================================================== *)
(** * Moves, lines and the two distance accumulators *)
(* ================================================================== *)

Open Scope list_scope.

Lemma euclidean_segment_len (a b : R * R) :
  _segment_len a b = euclidean a b.
Proof.
  unfold _segment_len, euclidean, hypot. f_equal. ring.
Qed.

Lemma hypot_0_0 : hypot 0 0 = 0.
Proof.
  unfold hypot. replace (0 * 0 + 0 * 0) with 0 by ring. apply sqrt_0.
Qed.

Lemma segment_len_same (a : R * R) : _segment_len a a = 0.
Proof.
  unfold _segment_len.
  replace (fst a - fst a) with 0 by ring.
  replace (snd a - snd a) with 0 by ring.
  apply hypot_0_0.
Qed.

Lemma segment_len_nonneg (a b : R * R) : 0 <= _segment_len a b.
Proof. unfold _segment_len, hypot. apply sqrt_pos. Qed.

Lemma moveto_geometry x y p : geometry (moveto x y p) = geometry p.
Proof.
  unfold moveto. destruct (_pos p); cbn;
    destruct (use_device (geometry p)); reflexivity.
Qed.

Lemma lineto_geometry x y p : geometry (lineto x y p) = geometry p.
Proof.
  unfold lineto. destruct (_pos p); cbn;
    destruct (use_device (geometry p)); reflexivity.
Qed.

Lemma moveto_pos x y p : _pos (moveto x y p) = Some (x, y).
Proof.
  unfold moveto. destruct (_pos p); cbn;
    destruct (use_device (geometry p)); reflexivity.
Qed.

Lemma lineto_pos x y p : _pos (lineto x y p) = Some (x, y).
Proof.
  unfold lineto. destruct (_pos p); cbn;
    destruct (use_device (geometry p)); reflexivity.
Qed.

Lemma moveto_pen_distance x y p :
  _pen_distance_in (moveto x y p) =
  match _pos p with
  | Some a => _pen_distance_in p + _segment_len a (x, y)
  | None => _pen_distance_in p
  end.
Proof.
  unfold moveto. destruct (_pos p); cbn;
    destruct (use_device (geometry p)); reflexivity.
Qed.

Lemma moveto_drawn_length x y p :
  _drawn_length_in (moveto x y p) = _drawn_length_in p.
Proof.
  unfold moveto. destruct (_pos p); cbn;
    destruct (use_device (geometry p)); reflexivity.
Qed.

Lemma lineto_pen_distance x y p :
  _pen_distance_in (lineto x y p) =
  match _pos p with
  | Some a => _pen_distance_in p + _segment_len a (x, y)
  | None => _pen_distance_in p
  end.
Proof.
  unfold lineto. destruct (_pos p); cbn;
    destruct (use_device (geometry p)); reflexivity.
Qed.

Lemma lineto_drawn_length x y p :
  _drawn_length_in (lineto x y p) =
  match _pos p with
  | Some a => _drawn_length_in p + _segment_len a (x, y)
  | None => _drawn_length_in p
  end.
Proof.
  unfold lineto. destruct (_pos p); cbn;
    destruct (use_device (geometry p)); reflexivity.
Qed.

Lemma do_motion_pos m p : _pos (do_motion m p) = Some (target m).
Proof. destruct m; cbn; [apply moveto_pos | apply lineto_pos]. Qed.

Lemma do_motion_geometry m p : geometry (do_motion m p) = geometry p.
Proof. destruct m; cbn; [apply moveto_geometry | apply lineto_geometry]. Qed.

Lemma do_motions_geometry ms p : geometry (do_motions ms p) = geometry p.
Proof.
  revert p. induction ms as [|m ms IH]; intros p; cbn; [reflexivity|].
  fold (do_motions ms (do_motion m p)). rewrite IH. apply do_motion_geometry.
Qed.

Lemma do_motions_app ms1 ms2 p :
  do_motions (ms1 ++ ms2) p = do_motions ms2 (do_motions ms1 p).
Proof. unfold do_motions. apply fold_left_app. Qed.

(** From a pen at [a], the accumulators grow by the sums over the
    segments. *)
Lemma do_motions_from_position ms : forall p a,
  _pos p = Some a ->
  _pen_distance_in (do_motions ms p)
    = _pen_distance_in p + travel_distance (segments a ms)
  /\ _drawn_length_in (do_motions ms p)
    = _drawn_length_in p + drawn_length (segments a ms).
Proof.
  induction ms as [|m ms IH]; intros p a Hpos.
  - cbn. unfold travel_distance, drawn_length. cbn. split; ring.
  - cbn [do_motions fold_left]. fold (do_motions ms (do_motion m p)).
    destruct (IH (do_motion m p) (target m) (do_motion_pos m p)) as [Ht Hd].
    rewrite Ht, Hd. unfold travel_distance, drawn_length.
    destruct m as [x y|x y]; cbn.
    + rewrite moveto_pen_distance, moveto_drawn_length, Hpos.
      rewrite euclidean_segment_len. unfold Rsum. split; ring.
    + rewrite lineto_pen_distance, lineto_drawn_length, Hpos.
      rewrite euclidean_segment_len. unfold Rsum. split; ring.
Qed.

(** The same from any state: a pen without a position is placed by the
    first call, which adds nothing. *)
Lemma do_motions_accumulate ms p :
  _pen_distance_in (do_motions ms p)
    = _pen_distance_in p + travel_distance (segments_from (_pos p) ms)
  /\ _drawn_length_in (do_motions ms p)
    = _drawn_length_in p + drawn_length (segments_from (_pos p) ms).
Proof.
  destruct (_pos p) as [a|] eqn:Hpos.
  - cbn. now apply do_motions_from_position.
  - destruct ms as [|m ms].
    + cbn. unfold travel_distance, drawn_length. cbn. split; ring.
    + cbn [do_motions fold_left segments_from].
      fold (do_motions ms (do_motion m p)).
      destruct (do_motions_from_position ms (do_motion m p) (target m)
                  (do_motion_pos m p)) as [Ht Hd].
      rewrite Ht, Hd.
      destruct m as [x y|x y]; cbn.
      * rewrite moveto_pen_distance, moveto_drawn_length, Hpos. tauto.
      * rewrite lineto_pen_distance, lineto_drawn_length, Hpos. tauto.
Qed.

Lemma new_plotter_fresh ts ud out d bbox lpx :
  _pos (new_plotter ts ud out d bbox lpx) = None
  /\ _pen_distance_in (new_plotter ts ud out d bbox lpx) = 0
  /\ _drawn_length_in (new_plotter ts ud out d bbox lpx) = 0.
Proof.
  unfold new_plotter. destruct bbox as [[[x0 y0] x1] y1].
  destruct ud; cbn; auto.
Qed.

(** C1. On a plotter as [__init__] leaves it, after any sequence of
    [moveto] and [lineto] calls the travel accumulator is the sum of the
    Euclidean distances between consecutive pen positions, and the
    drawn-length accumulator is the sum over the segments made by a
    [lineto]; the first call, whichever it is, only places the pen and
    leaves both accumulators at zero. *)
Theorem accumulators_sum_segments
  (ts : string) (ud : bool) (out : string) (d : Z) (bbox : R * R * R * R)
  (lpx : Z) (ms : list motion) :
  let p0 := new_plotter ts ud out d bbox lpx in
  _pen_distance_in (do_motions ms p0)
    = travel_distance (segments_from None ms)
  /\ _drawn_length_in (do_motions ms p0)
    = drawn_length (segments_from None ms)
  /\ (forall m, _pen_distance_in (do_motion m p0) = 0
                /\ _drawn_length_in (do_motion m p0) = 0
                /\ _pos (do_motion m p0) = Some (target m)).
Proof.
  intros p0.
  destruct (new_plotter_fresh ts ud out d bbox lpx) as [Hpos [Ht Hd]].
  fold p0 in Hpos, Ht, Hd.
  destruct (do_motions_accumulate ms p0) as [Hta Hda].
  rewrite Hpos, Ht in Hta. rewrite Hpos, Hd in Hda.
  repeat split.
  - rewrite Hta. ring.
  - rewrite Hda. ring.
  - destruct m; cbn.
    + now rewrite moveto_pen_distance, Hpos.
    + now rewrite lineto_pen_distance, Hpos.
  - destruct m; cbn.
    + now rewrite moveto_drawn_length.
    + now rewrite lineto_drawn_length, Hpos.
  - apply do_motion_pos.
Qed.

(* ================================================================== *)
(** * What positioning calls record and forward *)
(* ================================================================== *)

Lemma moveto_records x y p :
  if use_device (geometry p)
  then world (moveto x y p) = world p ++ [DevMoveTo x y]
       /\ _command_log (moveto x y p) = _command_log p
  else _command_log (moveto x y p) = _command_log p ++ [MoveTo x y]
       /\ world (moveto x y p) = world p.
Proof.
  unfold moveto. destruct (_pos p); cbn;
    destruct (use_device (geometry p)); cbn; auto.
Qed.

Lemma lineto_records x y p :
  if use_device (geometry p)
  then world (lineto x y p) = world p ++ [DevLineTo x y]
       /\ _command_log (lineto x y p) = _command_log p
  else _command_log (lineto x y p) = _command_log p ++ [LineTo x y]
       /\ world (lineto x y p) = world p.
Proof.
  unfold lineto. destruct (_pos p); cbn;
    destruct (use_device (geometry p)); cbn; auto.
Qed.

Lemma do_motion_records m p :
  if use_device (geometry p)
  then world (do_motion m p) = world p ++ [dev_event_of m]
       /\ _command_log (do_motion m p) = _command_log p
  else _command_log (do_motion m p) = _command_log p ++ [entry_of m]
       /\ world (do_motion m p) = world p.
Proof.
  destruct m; cbn; [apply moveto_records | apply lineto_records].
Qed.

Lemma do_motions_records ms : forall p,
  if use_device (geometry p)
  then world (do_motions ms p) = world p ++ map dev_event_of ms
       /\ _command_log (do_motions ms p) = _command_log p
  else _command_log (do_motions ms p) = _command_log p ++ map entry_of ms
       /\ world (do_motions ms p) = world p.
Proof.
  induction ms as [|m ms IH]; intros p.
  - cbn. rewrite !app_nil_r. destruct (use_device (geometry p)); auto.
  - cbn [do_motions fold_left map]. fold (do_motions ms (do_motion m p)).
    specialize (IH (do_motion m p)).
    rewrite do_motion_geometry in IH.
    pose proof (do_motion_records m p) as Hm.
    destruct (use_device (geometry p));
      destruct IH as [IH1 IH2]; destruct Hm as [Hm1 Hm2];
      rewrite IH1, IH2, Hm1, Hm2, <- app_assoc; auto.
Qed.

Lemma do_motions_last_pos ms m p :
  _pos (do_motions (ms ++ [m]) p) = Some (target m).
Proof. rewrite do_motions_app. cbn. apply do_motion_pos. Qed.

Lemma outlinePage_motions do_dots p :
  outlinePage do_dots p = do_motions (outline_motions do_dots (geometry p)) p.
Proof.
  unfold outlinePage, outline_motions, do_motions.
  destruct do_dots; cbn [fold_left app do_motion]; reflexivity.
Qed.

Lemma default_plotter_geometry ts ud :
  xmin (geometry (default_plotter ts ud)) = 0
  /\ ymin (geometry (default_plotter ts ud)) = 0
  /\ xmax (geometry (default_plotter ts ud)) = 11.69
  /\ ymax (geometry (default_plotter ts ud)) = 8.27.
Proof. destruct ud; cbn; auto. Qed.

(** C8. [outlinePage(do_dots=False)] makes five [moveto] calls and no
    [lineto] call: to the corners (xmin,ymin), (xmin,ymax), (xmax,ymax),
    (xmax,ymin) in this order and back to (xmin,ymin).  The five moves are
    what the driver receives in device mode and what the log receives in
    image mode; the pen ends at (xmin,ymin), on the default page at
    (0,0). *)
Theorem outline_without_dots_five_moves (p : DualPlotter) :
  let g := geometry p in
  let corners :=
    [ PenUp (xmin g) (ymin g); PenUp (xmin g) (ymax g);
      PenUp (xmax g) (ymax g); PenUp (xmax g) (ymin g);
      PenUp (xmin g) (ymin g) ] in
  outlinePage false p = do_motions corners p
  /\ count_moveto corners = 5%nat
  /\ count_lineto corners = 0%nat
  /\ (if use_device g
      then world (outlinePage false p) = world p ++ map dev_event_of corners
      else _command_log (outlinePage false p)
           = _command_log p ++ map entry_of corners)
  /\ _pos (outlinePage false p) = Some (xmin g, ymin g)
  /\ (forall ts ud,
        _pos (outlinePage false (default_plotter ts ud)) = Some (0, 0)).
Proof.
  intros g corners.
  assert (Hrun : forall q, geometry q = g ->
            outlinePage false q = do_motions corners q).
  { intros q Hq. rewrite outlinePage_motions, Hq. reflexivity. }
  split; [now apply Hrun|].
  split; [reflexivity|]. split; [reflexivity|].
  split; [|split].
  - rewrite (Hrun p eq_refl).
    pose proof (do_motions_records corners p) as Hrec. fold g in Hrec.
    destruct (use_device g); tauto.
  - rewrite (Hrun p eq_refl).
    apply (do_motions_last_pos
             [ PenUp (xmin g) (ymin g); PenUp (xmin g) (ymax g);
               PenUp (xmax g) (ymax g); PenUp (xmax g) (ymin g) ]
             (PenUp (xmin g) (ymin g)) p).
  - intros ts ud. rewrite outlinePage_motions.
    destruct (default_plotter_geometry ts ud) as [Hx [Hy _]].
    unfold outline_motions.
    rewrite !app_assoc, do_motions_last_pos. cbn [target].
    now rewrite Hx, Hy.
Qed.

Lemma euclidean_same (a : R * R) : euclidean a a = 0.
Proof. rewrite <- euclidean_segment_len. apply segment_len_same. Qed.

Lemma euclidean_vertical (x y0 y1 : R) :
  euclidean (x, y0) (x, y1) = Rabs (y1 - y0).
Proof.
  unfold euclidean. cbn [fst snd].
  replace ((x - x) ^ 2 + (y1 - y0) ^ 2) with (Rsqr (y1 - y0))
    by (unfold Rsqr; ring).
  apply sqrt_Rsqr_abs.
Qed.

Lemma euclidean_horizontal (x0 x1 y : R) :
  euclidean (x0, y) (x1, y) = Rabs (x1 - x0).
Proof.
  unfold euclidean. cbn [fst snd].
  replace ((x1 - x0) ^ 2 + (y - y) ^ 2) with (Rsqr (x1 - x0))
    by (unfold Rsqr; ring).
  apply sqrt_Rsqr_abs.
Qed.

(** C10. [outlinePage] leaves the drawn-length accumulator as it is, with
    and without dots: a [lineto] of the outline goes to the point the pen
    is at, so every drawn segment has length zero.  The travel accumulator
    grows by the way to the first corner and by the four sides of the
    page. *)
Theorem outline_draws_no_length (do_dots : bool) (p : DualPlotter) :
  let g := geometry p in
  _drawn_length_in (outlinePage do_dots p) = _drawn_length_in p
  /\ Forall (fun seg => fst seg = true -> snd seg = 0)
       (segments_from (_pos p) (outline_motions do_dots g))
  /\ _pen_distance_in (outlinePage do_dots p)
     = _pen_distance_in p + approach (_pos p) (xmin g, ymin g)
       + 2 * Rabs (ymax g - ymin g) + 2 * Rabs (xmax g - xmin g).
Proof.
  intros g. rewrite outlinePage_motions. fold g.
  destruct (do_motions_accumulate (outline_motions do_dots g) p) as [Ht Hd].
  rewrite Ht, Hd. clear Ht Hd.
  assert (Hside1 : Rabs (ymin g - ymax g) = Rabs (ymax g - ymin g))
    by apply Rabs_minus_sym.
  assert (Hside2 : Rabs (xmin g - xmax g) = Rabs (xmax g - xmin g))
    by apply Rabs_minus_sym.
  unfold travel_distance, drawn_length, approach, Rsum, outline_motions.
  destruct (_pos p) as [a|], do_dots; cbn;
    rewrite ?euclidean_same, ?euclidean_vertical, ?euclidean_horizontal,
      ?Hside1, ?Hside2;
    (split; [ring | split; [|ring]]);
    repeat constructor; cbn; intros; try discriminate; reflexivity.
Qed.

(* ================================================================== *)
(** * Colours *)
(* ================================================================== *)

Lemma color_table_has_black :
  dict_item _COLOR_TABLE BLACK = inr (0, 0, 0)%Z.
Proof. reflexivity. Qed.

Lemma rgb_for_name_str (s : string) :
  _rgb_for_name (PyStr s)
  = inr (dict_get_default _COLOR_TABLE (upper (strip s)) (0, 0, 0)%Z).
Proof. unfold _rgb_for_name. rewrite color_table_has_black. reflexivity. Qed.

Lemma rgb_for_name_other (v : py_value) :
  (forall s, v <> PyStr s) -> _rgb_for_name v = inr (0, 0, 0)%Z.
Proof.
  intros Hv. destruct v; try apply color_table_has_black.
  now destruct (Hv s).
Qed.

(** C6. The colour lookup returns a colour for every input and raises
    nothing.  A value it does not know (a name that, stripped and in upper
    case, is no key of the table, or a value that is no string) gets
    (0, 0, 0), which is what ["BLACK"] gets. *)
Theorem color_lookup_falls_back_to_black (v : py_value) :
  exists c : rgb,
    _rgb_for_name v = inr c
    /\ (known_color v = false -> c = (0, 0, 0)%Z)
    /\ _rgb_for_name (PyStr "BLACK") = inr (0, 0, 0)%Z.
Proof.
  destruct v as [s| | | |].
  - exists (dict_get_default _COLOR_TABLE (upper (strip s)) (0, 0, 0)%Z).
    split; [apply rgb_for_name_str|]. split; [|reflexivity].
    unfold known_color, dict_get_default.
    destruct (dict_get _COLOR_TABLE (upper (strip s)));
      [discriminate | reflexivity].
  - exists (0, 0, 0)%Z. repeat split.
  - exists (0, 0, 0)%Z. repeat split.
  - exists (0, 0, 0)%Z. repeat split.
  - exists (0, 0, 0)%Z. repeat split.
Qed.

Lemma color_lookup_falls_back_to_black_witness :
  known_color (PyStr "TEAL") = false
  /\ exists c : rgb,
       _rgb_for_name (PyStr "TEAL") = inr c
       /\ c = (0, 0, 0)%Z
       /\ _rgb_for_name (PyStr "BLACK") = inr (0, 0, 0)%Z.
Proof.
  split; [reflexivity|].
  destruct (color_lookup_falls_back_to_black (PyStr "TEAL"))
    as [c [Hc [Hblack Hb]]].
  exists c. split; [exact Hc|]. split; [|exact Hb].
  apply Hblack. reflexivity.
Defined.

Example rgb_for_padded_lower_case_name :
  _rgb_for_name (PyStr "  red ") = inr (220, 20, 60)%Z.
Proof. reflexivity. Qed.

Example rgb_for_number : _rgb_for_name (PyInt 7) = inr (0, 0, 0)%Z.
Proof. reflexivity. Qed.

(** C5. [confirmColorChange] starts with [moveto(0.0, 0.0)] in both modes:
    its result is the rest of the method applied to the parked plotter.
    In device mode the driver receives the move and then the operator is
    prompted; in image mode the log receives [MoveTo(0, 0)] and, next to
    it, the [ColorChange] entry. *)
Theorem color_change_parks_pen_first
  (name : string) (interrupted : bool) (p : DualPlotter) :
  let parked := moveto 0 0 p in
  if use_device (geometry p)
  then
    let prompt :=
      ConsoleInput name
        :: (if interrupted then [ConsolePrint MsgCancelled] else []) in
    confirmColorChange name interrupted p = emit_all prompt parked
    /\ world (confirmColorChange name interrupted p)
       = world p ++ DevMoveTo 0 0 :: prompt
  else
    (exists c : rgb,
       _rgb_for_name (PyStr name) = inr c
       /\ confirmColorChange name interrupted p
          = log_append (ColorChange name) (set_stroke name c parked))
    /\ _command_log (confirmColorChange name interrupted p)
       = _command_log p ++ [MoveTo 0 0; ColorChange name]
    /\ world (confirmColorChange name interrupted p) = world p.
Proof.
  intros parked.
  pose proof (moveto_records 0 0 p) as Hrec.
  pose proof (moveto_geometry 0 0 p) as Hgeo.
  fold parked in Hrec, Hgeo.
  unfold confirmColorChange. fold parked. rewrite Hgeo.
  destruct (use_device (geometry p)).
  - destruct Hrec as [Hw _]. cbv zeta.
    assert (Hsame : (if interrupted
                     then emit (ConsolePrint MsgCancelled)
                            (emit (ConsoleInput name) parked)
                     else emit (ConsoleInput name) parked)
                    = emit_all
                        (ConsoleInput name
                           :: (if interrupted
                               then [ConsolePrint MsgCancelled] else []))
                        parked).
    { destruct interrupted; unfold emit, emit_all; cbn;
        rewrite <- ?app_assoc; reflexivity. }
    rewrite Hsame. split; [reflexivity|].
    unfold emit_all. cbn [world set_world]. rewrite Hw, <- app_assoc.
    reflexivity.
  - destruct Hrec as [Hl Hw]. rewrite rgb_for_name_str.
    split; [eexists; split; reflexivity|].
    cbn. rewrite Hl, Hw, <- app_assoc. split; reflexivity.
Qed.

(* ================================================================== *)
(** * The replay script *)
(* ================================================================== *)

Lemma py_round_integer (z : Z) : py_round (IZR z) = z.
Proof.
  unfold py_round. rewrite ZfloorZ.
  destruct (Rlt_dec (IZR z - IZR z) (1 / 2)) as [_|Hge]; [reflexivity|].
  exfalso. apply Hge. lra.
Qed.

Lemma round3_integer (z : Z) : round3 (IZR z) = IZR z.
Proof.
  unfold round3. rewrite <- mult_IZR, py_round_integer, mult_IZR. field.
Qed.

(** What [disconnect] does to the outside in image mode. *)
Lemma disconnect_world (p : DualPlotter) :
  use_device (geometry p) = false ->
  let g := geometry p in
  world (disconnect p)
  = world p ++
    [ PngSaved (out_path g) (W g, H g) (_img p) (dpi g);
      OsSystem ("open " ++ out_path g)%string;
      FileWritten (_py_out_path g) (replay_script p);
      ConsolePrint (MsgWroteScript (_py_out_path g));
      ConsolePrint (MsgSavedPng (out_path g));
      ConsolePrint (MsgTravel (_pen_distance_in p));
      ConsolePrint (MsgDrawn (_drawn_length_in p)) ].
Proof.
  intros Hmode g. subst g. unfold disconnect. rewrite Hmode.
  unfold _write_replay_script, replay_script, replay_options, emit, emit_all.
  cbn [world set_world _options_snapshot geometry].
  destruct (_options_snapshot p) as [opts|] eqn:Hsnap;
    cbn [world set_world set_options_snapshot _options_snapshot geometry
         _command_log _pen_distance_in _drawn_length_in];
    rewrite ?Hsnap, <- !app_assoc; reflexivity.
Qed.

Lemma no_lineto_line_without_one (script : list script_line) (x y : R) :
  replays_moveto_then_lineto script x y ->
  existsb is_lineto_line script = true.
Proof.
  intros [pre [post Heq]]. rewrite Heq.
  rewrite existsb_app. cbn. now rewrite orb_true_r.
Qed.

Lemma line_first_session_log :
  _command_log line_first_session = [LineTo 1 2].
Proof. reflexivity. Qed.

(** C3, as stated, fails: after the single call [lineto(1, 2)] the log is
    [LineTo(1, 2)], and the script holds the inserted [moveto] but no
    [lineto] behind it. *)
Lemma first_lineto_not_replayed :
  _command_log line_first_session = [LineTo 1 2]
  /\ replay_body (_command_log line_first_session)
     = [ Text "    # Replay recorded moves (inches) and color changes:";
         CallMoveTo 1 2 true ]
  /\ ~ replays_moveto_then_lineto (replay_script line_first_session) 1 2.
Proof.
  split; [reflexivity|]. split.
  { rewrite line_first_session_log. cbn.
    now rewrite (round3_integer 1), (round3_integer 2). }
  intros Hreplay. apply no_lineto_line_without_one in Hreplay.
  unfold replay_script in Hreplay.
  rewrite line_first_session_log in Hreplay.
  rewrite !existsb_app in Hreplay. cbn in Hreplay. discriminate.
Qed.

(** C3, amended.  When the log of an image-mode session starts with
    [LineTo(x, y)], the replay script holds a [moveto] to (x, y), rounded
    to three decimals and marked as inserted, in the place of that entry:
    the entry itself gives no [lineto] line, and the lines of the
    remaining entries follow in order.  This is the script [disconnect]
    writes. *)
Theorem first_lineto_replayed_as_moveto
  (p : DualPlotter) (x y : R) (rest : list entry)
  (Hmode : use_device (geometry p) = false)
  (Hlog : _command_log p = LineTo x y :: rest) :
  let body :=
    Text "    # Replay recorded moves (inches) and color changes:"
      :: CallMoveTo (round3 x) (round3 y) true
      :: flat_map script_of_entry rest in
  replay_body (_command_log p) = body
  /\ In (FileWritten (_py_out_path (geometry p))
           (replay_header (replay_options p) ++ body ++ replay_footer))
       (world (disconnect p)).
Proof.
  intros body.
  assert (Hbody : replay_body (_command_log p) = body)
    by (rewrite Hlog; reflexivity).
  split; [exact Hbody|].
  rewrite (disconnect_world p Hmode). unfold replay_script. rewrite Hbody.
  apply in_or_app. right. cbn. auto.
Qed.

Lemma first_lineto_replayed_as_moveto_witness :
  let p := line_first_session in
  let body :=
    Text "    # Replay recorded moves (inches) and color changes:"
      :: CallMoveTo (round3 1) (round3 2) true
      :: flat_map script_of_entry [] in
  replay_body (_command_log p) = body
  /\ In (FileWritten (_py_out_path (geometry p))
           (replay_header (replay_options p) ++ body ++ replay_footer))
       (world (disconnect p)).
Proof.
  exact (first_lineto_replayed_as_moveto line_first_session 1 2 []
           eq_refl eq_refl).
Defined.

(* ================================================================== *)
(** * The options snapshot *)
(* ================================================================== *)




Lemma confirmColorChange_geometry n i p :
  geometry (confirmColorChange n i p) = geometry p.
Proof.
  unfold confirmColorChange. rewrite moveto_geometry, rgb_for_name_str.
  destruct (use_device (geometry p)); [destruct i|]; cbn;
    apply moveto_geometry.
Qed.


Lemma interactive_frame p :
  geometry (interactive p) = geometry p
  /\ _options_snapshot (interactive p) = _options_snapshot p.
Proof.
  unfold interactive. destruct (use_device (geometry p)); cbn; auto.
Qed.

Lemma connect_geometry a p : geometry (snd (connect a p)) = geometry p.
Proof.
  unfold connect.
  destruct (use_device (geometry p)); [reflexivity|].
  destruct (_options_snapshot p); reflexivity.
Qed.

Lemma disconnect_geometry p : geometry (disconnect p) = geometry p.
Proof.
  unfold disconnect, _write_replay_script.
  destruct (use_device (geometry p)); [reflexivity|]. cbn.
  destruct (_options_snapshot p); reflexivity.
Qed.

Lemma do_call_geometry c p : geometry (do_call c p) = geometry p.
Proof.
  destruct c; cbn [do_call].
  - apply interactive_frame.
  - apply connect_geometry.
  - apply moveto_geometry.
  - apply lineto_geometry.
  - apply confirmColorChange_geometry.
  - rewrite outlinePage_motions. apply do_motions_geometry.
  - reflexivity.
  - apply disconnect_geometry.
Qed.

Lemma do_calls_geometry cs : forall p, geometry (do_calls cs p) = geometry p.
Proof.
  induction cs as [|c cs IH]; intros p; [reflexivity|].
  cbn [do_calls fold_left]. fold (do_calls cs (do_call c p)).
  rewrite IH. apply do_call_geometry.
Qed.









(* ================================================================== *)
(** * Measuring and drawing a word *)
(* ================================================================== *)











(** The glyphs of [a], [o] and [s] declare the widths 1, 0.6 and 0.55. *)
Example declared_glyph_widths :
  option_map glyph_w (dict_get FONT "a") = Some 1
  /\ option_map glyph_w (dict_get FONT "o") = Some 0.6
  /\ option_map glyph_w (dict_get FONT "s") = Some 0.55.
Proof. repeat split. Qed.

(** The second ['w'] of the font table is the one in force, and
    [FONT['?']] is the fallback glyph. *)
Example font_table_lookups :
  option_map glyph_w (dict_get FONT "w") = Some 1
  /\ dict_get FONT "?" = Some FONT_fallback
  /\ dict_get FONT "@" = None.
Proof. repeat split. Qed.

(* ================================================================== *)
(** * Splitting into words and joining them again *)
(* ================================================================== *)

Lemma no_whitespace_app (s t : string) :
  no_whitespace (s ++ t) = no_whitespace s && no_whitespace t.
Proof.
  induction s as [|c s IH]; cbn; [reflexivity|].
  now rewrite IH, andb_assoc.
Qed.

Lemma append_empty_r (s : string) : (s ++ EmptyString)%string = s.
Proof. induction s as [|c s IH]; cbn; [reflexivity | now rewrite IH]. Qed.

Lemma append_assoc (s t u : string) :
  ((s ++ t) ++ u)%string = (s ++ (t ++ u))%string.
Proof. induction s as [|c s IH]; cbn; [reflexivity | now rewrite IH]. Qed.

Lemma split_from_words (s : string) : forall cur,
  no_whitespace cur = true -> Forall is_word (split_from cur s).
Proof.
  induction s as [|c s IH]; intros cur Hcur; cbn.
  - destruct cur; constructor; [|constructor].
    split; [discriminate | exact Hcur].
  - destruct (isspace c) eqn:Hc.
    + destruct cur.
      * now apply IH.
      * constructor; [split; [discriminate | exact Hcur]|]. now apply IH.
    + apply IH. rewrite no_whitespace_app, Hcur. cbn. now rewrite Hc.
Qed.

Lemma split_words (s : string) : Forall is_word (split s).
Proof. now apply split_from_words. Qed.

(** Reading on through a run without whitespace. *)
Lemma split_from_run (w : string) : forall cur rest,
  no_whitespace w = true ->
  split_from cur (w ++ rest) = split_from (cur ++ w) rest.
Proof.
  induction w as [|c w IH]; intros cur rest Hw; cbn.
  - now rewrite append_empty_r.
  - cbn in Hw. apply andb_prop in Hw. destruct Hw as [Hc Hw].
    apply negb_true_iff in Hc. rewrite Hc, (IH _ _ Hw), append_assoc.
    reflexivity.
Qed.

(** The words of a line are the words it was joined from. *)
Lemma split_join (ws : list string) :
  Forall is_word ws -> split (join " " ws) = ws.
Proof.
  unfold split. induction 1 as [|w ws [Hne Hw] Hws IH]; [reflexivity|].
  destruct ws as [|w' ws].
  - cbn [join]. rewrite <- (append_empty_r w) at 1.
    rewrite (split_from_run w _ _ Hw). cbn.
    destruct w; [contradiction | reflexivity].
  - change (join " " (w :: w' :: ws))
      with (w ++ String " "%char (join " " (w' :: ws)))%string.
    rewrite (split_from_run w _ _ Hw). cbn [append split_from].
    change (isspace " "%char) with true. cbv iota.
    destruct w; [contradiction|]. now rewrite IH.
Qed.

Lemma Forall_concat_words (groups : list (list string)) :
  Forall is_word (List.concat groups) ->
  Forall (fun g => Forall is_word g) groups.
Proof.
  induction groups as [|g groups IH]; cbn; intros Hall; constructor.
  - apply Forall_app in Hall. tauto.
  - apply IH. apply Forall_app in Hall. tauto.
Qed.

Lemma map_split_join (groups : list (list string)) :
  Forall (fun g => Forall is_word g) groups ->
  map split (map (join " ") groups) = groups.
Proof.
  induction 1 as [|g groups Hg Hgroups IH]; cbn; [reflexivity|].
  now rewrite IH, split_join.
Qed.

(* ================================================================== *)
(** * Word wrap *)
(* ================================================================== *)

Lemma Rgtb_false (a b : R) : Rgtb a b = false -> a <= b.
Proof.
  unfold Rgtb. destruct (Rgt_dec a b); [discriminate|].
  intros _. now apply Rnot_gt_le.
Qed.

Lemma Rsum_snoc (l : list R) (x : R) : Rsum (l ++ [x]) = Rsum l + x.
Proof.
  unfold Rsum. induction l as [|y l IH]; cbn; [ring|]. rewrite IH. ring.
Qed.

Section Wrap.

Variables height_in max_width_in letter_spacing_em : R.
Variable word_spacing_em : option R.

Local Abbreviation measure w :=
  (measure_word_width_inches w height_in letter_spacing_em).
Local Abbreviation space :=
  (space_advance_inches height_in letter_spacing_em word_spacing_em).
Local Abbreviation width g :=
  (line_width g height_in letter_spacing_em word_spacing_em).
Local Abbreviation budget := (0.6 * max_width_in).
Local Abbreviation step :=
  (wrap_step height_in max_width_in letter_spacing_em word_spacing_em).
Local Abbreviation fits :=
  (line_fits height_in max_width_in letter_spacing_em word_spacing_em).
Local Abbreviation wrap_invariant :=
  (wrap_loop_invariant height_in max_width_in letter_spacing_em
     word_spacing_em).

Lemma width_single (w : string) : width [w] = measure w.
Proof. unfold line_width, Rsum. cbn. ring. Qed.

Lemma width_snoc (g : list string) (w : string) :
  g <> [] -> width (g ++ [w]) = width g + space + measure w.
Proof.
  intros Hg. unfold line_width.
  rewrite map_app. cbn [map]. rewrite Rsum_snoc, length_app.
  cbn [List.length].
  destruct g as [|w0 g]; [contradiction|]. cbn [List.length].
  replace (S (List.length g) + 1 - 1)%nat with (S (List.length g)) by lia.
  replace (S (List.length g) - 1)%nat with (List.length g) by lia.
  rewrite S_INR. ring.
Qed.

Lemma fits_single (w : string) : fits [w].
Proof.
  unfold line_fits. rewrite width_single.
  destruct (Rle_dec (measure w) budget) as [Hle|Hgt]; [now left|].
  right. exists w. split; [reflexivity|]. now apply Rnot_le_gt.
Qed.

Lemma wrap_step_invariant st groups seen w :
  wrap_invariant st groups seen ->
  exists groups', wrap_invariant (step st w) groups' (seen ++ [w]).
Proof.
  destruct st as [[lines current_words] current_width].
  intros [Hlines [Hseen [Hgroups [Hempty Hcurrent]]]].
  unfold wrap_step.
  destruct current_words as [|w0 cw].
  - exists groups. cbn.
    rewrite (Hempty eq_refl), <- Hseen, app_nil_r.
    repeat split; auto; try discriminate.
    + rewrite width_single. ring.
    + apply fits_single.
  - destruct (Hcurrent ltac:(discriminate)) as [Hwidth Hfits].
    cbn [List.length Nat.ltb Nat.leb truthy andb].
    destruct (Rgtb (current_width + space + measure w)
                (max_width_in * 0.6)) eqn:Hcmp.
    + exists (groups ++ [w0 :: cw]). unfold wrap_loop_invariant.
      rewrite <- Hseen, map_app, concat_app, Hlines. cbn [map List.concat].
      rewrite app_nil_r, <- app_assoc.
      repeat split; auto; try discriminate.
      * apply Forall_app. split; [exact Hgroups|].
        constructor; [|constructor]. split; [discriminate | exact Hfits].
      * now rewrite width_single.
      * apply fits_single.
    + exists groups. apply Rgtb_false in Hcmp. unfold wrap_loop_invariant.
      rewrite <- Hseen, <- app_assoc.
      repeat split; auto.
      * intros Hnil. now destruct (app_eq_nil _ _ Hnil).
      * rewrite width_snoc, Hwidth by discriminate. reflexivity.
      * left. rewrite width_snoc by discriminate.
        rewrite <- Hwidth. lra.
Qed.

Lemma wrap_fold_invariant words : forall st groups seen,
  wrap_invariant st groups seen ->
  exists groups', wrap_invariant (fold_left step words st) groups'
                    (seen ++ words).
Proof.
  induction words as [|w words IH]; intros st groups seen Hinv.
  - exists groups. now rewrite app_nil_r.
  - cbn [fold_left].
    destruct (wrap_step_invariant st groups seen w Hinv) as [groups1 H1].
    destruct (IH _ _ _ H1) as [groups2 H2].
    exists groups2. now rewrite <- app_assoc in H2.
Qed.

(** The lines of the wrap are the joined word lists of a split of the
    words into non-empty groups that fit. *)
Lemma wrap_words_groups (words : list string) :
  exists groups,
    wrap_words words height_in max_width_in letter_spacing_em
      word_spacing_em = map (join " ") groups
    /\ List.concat groups = words
    /\ Forall (fun g => g <> [] /\ fits g) groups.
Proof.
  assert (Hinit : wrap_invariant ([], [], 0) [] []).
  { cbn. repeat split; auto; congruence. }
  destruct (wrap_fold_invariant words _ _ _ Hinit) as [groups Hinv].
  unfold wrap_words. cbn [app] in Hinv.
  destruct (fold_left step words ([], [], 0))
    as [[lines current_words] current_width].
  destruct Hinv as [Hlines [Hseen [Hgroups [_ Hcurrent]]]].
  destruct current_words as [|w0 cw]; cbn [truthy].
  - exists groups. rewrite app_nil_r in Hseen. auto.
  - exists (groups ++ [w0 :: cw]).
    rewrite map_app, concat_app, Hlines. cbn [map List.concat].
    rewrite app_nil_r. split; [reflexivity|]. split; [exact Hseen|].
    apply Forall_app. split; [exact Hgroups|].
    constructor; [|constructor].
    split; [discriminate|]. apply Hcurrent. discriminate.
Qed.

End Wrap.

(** C2. Whatever the text and the wrap parameters, every line of the word
    wrap of [draw_wrapped_text] has a measured width (the widths of its
    words and the space advances between them, at the base height) of at
    most [0.6 * max_width_in], unless it is a single word that is wider
    than that on its own; and the words of the lines, in order, are the
    words of the text: none is lost and none is repeated. *)
Theorem wrapped_lines_fit_budget (text : string)
  (height_in max_width_in letter_spacing_em : R)
  (word_spacing_em : option R) :
  let lines :=
    wrap_words (split text) height_in max_width_in letter_spacing_em
      word_spacing_em in
  List.concat (map split lines) = split text
  /\ Forall
       (fun line =>
          split line <> []
          /\ (line_width (split line) height_in letter_spacing_em
                word_spacing_em <= 0.6 * max_width_in
              \/ exists w,
                   split line = [w]
                   /\ measure_word_width_inches w height_in
                        letter_spacing_em > 0.6 * max_width_in))
       lines.
Proof.
  intros lines.
  destruct (wrap_words_groups height_in max_width_in letter_spacing_em
              word_spacing_em (split text)) as [groups [Hl [Hcat Hfit]]].
  fold lines in Hl.
  assert (Hwords : Forall (fun g => Forall is_word g) groups).
  { apply Forall_concat_words. rewrite Hcat. apply split_words. }
  pose proof (map_split_join groups Hwords) as Hback.
  rewrite <- Hl in Hback.
  split; [now rewrite Hback|].
  rewrite Hl. apply Forall_map.
  rewrite Forall_forall in Hfit, Hwords. apply Forall_forall.
  intros g Hg. rewrite (split_join g (Hwords g Hg)).
  exact (Hfit g Hg).
Qed.

(** C7. The lines [draw_wrapped_text] wraps a text into are fixed by the
    text, the base height, the letter and word spacing and the maximal
    width: for every [font_scale] the same lines are drawn and the same
    value is returned.  The scale reaches the drawing of each line and the
    distance between the lines only. *)
Theorem wrapping_ignores_font_scale {A : Type} `{Plotting A} (ad : A)
  (text : string) (origin_x_in baseline_y_in height_in max_width_in
  letter_spacing_em : R) (word_spacing_em line_spacing_in : option R) :
  let spacing :=
    match line_spacing_in with None => 1.5 * height_in | Some v => v end in
  exists lines : list string,
    lines = wrap_words (split text) height_in max_width_in
              letter_spacing_em word_spacing_em
    /\ (forall font_scale : R,
          draw_wrapped_text ad text origin_x_in baseline_y_in height_in
            max_width_in letter_spacing_em word_spacing_em line_spacing_in
            font_scale
          = (if truthy (split text)
             then Some (List.length lines) else None,
             fst (draw_lines ad lines origin_x_in baseline_y_in height_in
                    letter_spacing_em word_spacing_em
                    (spacing * font_scale) font_scale)))
    /\ (forall s1 s2 : R,
          fst (draw_wrapped_text ad text origin_x_in baseline_y_in
                 height_in max_width_in letter_spacing_em word_spacing_em
                 line_spacing_in s1)
          = fst (draw_wrapped_text ad text origin_x_in baseline_y_in
                   height_in max_width_in letter_spacing_em
                   word_spacing_em line_spacing_in s2)).
Proof.
  intros spacing. eexists. split; [reflexivity|].
  unfold draw_wrapped_text. fold spacing.
  destruct (split text) as [|w words]; cbn [truthy negb]; split;
    intros; reflexivity.
Qed.

(* ================================================================== *)
(** * Worked examples *)
(* ================================================================== *)

(** [round(0.0625, 3)] is 0.062: the tie goes to the even neighbour. *)
Example round3_tie_to_even : round3 0.0625 = 0.062.
Proof.
  unfold round3, py_round.
  assert (Hfloor : Zfloor (0.0625 * 1000) = 62%Z) by (apply Zfloor_eq; lra).
  rewrite Hfloor.
  destruct (Rlt_dec (0.0625 * 1000 - 62) (1 / 2)) as [Hlt|_]; [lra|].
  destruct (Rgt_dec (0.0625 * 1000 - 62) (1 / 2)) as [Hgt|_]; [lra|].
  cbn. lra.
Qed.

(** A line first, then a move and a line: the pen is placed at (0,0),
    travels 5 to (3,4) and draws 4 down to (3,0). *)
Example session_distances :
  let p :=
    do_motions [PenDown 0 0; PenUp 3 4; PenDown 3 0]
      (default_plotter "0" false) in
  _pen_distance_in p = 9 /\ _drawn_length_in p = 4
  /\ _command_log p = [LineTo 0 0; MoveTo 3 4; LineTo 3 0].
Proof.
  intros p.
  destruct (do_motions_accumulate [PenDown 0 0; PenUp 3 4; PenDown 3 0]
              (default_plotter "0" false)) as [Ht Hd].
  fold p in Ht, Hd.
  assert (H5 : euclidean (0, 0) (3, 4) = 5).
  { unfold euclidean. cbn [fst snd].
    replace ((3 - 0) ^ 2 + (4 - 0) ^ 2) with (Rsqr 5) by (unfold Rsqr; ring).
    apply sqrt_Rsqr. lra. }
  assert (H4 : euclidean (3, 4) (3, 0) = 4).
  { rewrite euclidean_vertical.
    unfold Rabs. destruct (Rcase_abs (0 - 4)); lra. }
  split; [|split].
  - rewrite Ht. unfold travel_distance, Rsum. cbn. rewrite H5, H4. ring.
  - rewrite Hd. unfold drawn_length, Rsum. cbn. rewrite H4. ring.
  - reflexivity.
Qed.

(** With letter spacing 0.4 and height 1 a character advances by 1, a word
    of two by 2.  Of the budget 0.6 * 10 = 6, "aa bb" takes 5; "cc" would
    bring it to 8 and starts the second line. *)
Example wrap_three_words :
  wrap_words (split "aa  bb cc ") 1 10 0.4 None = ["aa bb"; "cc"].
Proof.
  change (split "aa  bb cc ") with ["aa"; "bb"; "cc"].
  unfold wrap_words, wrap_step, Rgtb, measure_word_width_inches,
    space_advance_inches, glyph_advance_inches, GLYPH_WIDTH_EM.
  repeat (cbn [fold_left truthy andb List.length Nat.ltb Nat.leb
               String.length INR app join append];
          match goal with
          | |- context [Rgt_dec ?a ?b] => destruct (Rgt_dec a b); try lra
          end).
  reflexivity.
Qed.

(** A single word wider than the budget still gets its line. *)
Example wrap_wide_word :
  wrap_words (split "a bbbbbbbb c") 1 10 0.4 None = ["a"; "bbbbbbbb"; "c"].
Proof.
  change (split "a bbbbbbbb c") with ["a"; "bbbbbbbb"; "c"].
  unfold wrap_words, wrap_step, Rgtb, measure_word_width_inches,
    space_advance_inches, glyph_advance_inches, GLYPH_WIDTH_EM.
  repeat (cbn [fold_left truthy andb List.length Nat.ltb Nat.leb
               String.length INR app join append];
          match goal with
          | |- context [Rgt_dec ?a ?b] => destruct (Rgt_dec a b); try lra
          end).
  reflexivity.
Qed.

(** The outline of the default page in image mode, as the log has it. *)
Example outline_of_default_page :
  _command_log (outlinePage false (default_plotter "0" false))
  = [ MoveTo 0 0; MoveTo 0 8.27; MoveTo 11.69 8.27; MoveTo 11.69 0;
      MoveTo 0 0 ].
Proof. reflexivity. Qed.

(** Drawing ["l"]: one move to the start of the stroke and two lines. *)
Example draw_letter_l :
  _command_log (draw_text_line (default_plotter "0" false) "L" 1 1 1 0.12
                  None 1)
  = [ MoveTo (1 + 0 * (0.6 * (1 * 1))) (1 + 0 * (1 * 1));
      LineTo (1 + 0 * (0.6 * (1 * 1))) (1 + 1 * (1 * 1));
      LineTo (1 + 1 * (0.6 * (1 * 1))) (1 + 1 * (1 * 1)) ].
Proof. reflexivity. Qed.

(* ================================================================== *)
(** * The pen's state under every call *)
(* ================================================================== *)

Lemma kin_moveto x y p : kin (moveto x y p) = kin_motion (PenUp x y) (kin p).
Proof.
  unfold kin. rewrite moveto_pos, moveto_pen_distance, moveto_drawn_length.
  cbn. destruct (_pos p); reflexivity.
Qed.

Lemma kin_lineto x y p : kin (lineto x y p) = kin_motion (PenDown x y) (kin p).
Proof.
  unfold kin. rewrite lineto_pos, lineto_pen_distance, lineto_drawn_length.
  cbn. destruct (_pos p); reflexivity.
Qed.

Lemma kin_do_motions ms : forall p,
  kin (do_motions ms p) = kin_motions ms (kin p).
Proof.
  induction ms as [|m ms IH]; intros p; [reflexivity|].
  cbn [do_motions kin_motions fold_left].
  fold (do_motions ms (do_motion m p)).
  fold (kin_motions ms (kin_motion m (kin p))).
  rewrite IH. f_equal. destruct m; cbn [do_motion];
    [apply kin_moveto | apply kin_lineto].
Qed.

Lemma kin_confirmColorChange n i p :
  kin (confirmColorChange n i p) = kin_motion (PenUp 0 0) (kin p).
Proof.
  rewrite <- kin_moveto. unfold confirmColorChange.
  rewrite moveto_geometry, rgb_for_name_str.
  destruct (use_device (geometry p)); [destruct i|]; reflexivity.
Qed.

Lemma kin_interactive p : kin (interactive p) = kin p.
Proof.
  unfold interactive. destruct (use_device (geometry p)); reflexivity.
Qed.

Lemma kin_connect a p : kin (snd (connect a p)) = kin p.
Proof.
  unfold connect. destruct (use_device (geometry p)); [reflexivity|].
  destruct (_options_snapshot p); reflexivity.
Qed.

Lemma kin_disconnect p : kin (disconnect p) = kin p.
Proof.
  unfold disconnect, _write_replay_script.
  destruct (use_device (geometry p)); [reflexivity|]. cbn.
  destruct (_options_snapshot p); reflexivity.
Qed.

Lemma kin_do_call c p :
  kin (do_call c p) = kin_call (geometry p) c (kin p).
Proof.
  destruct c; cbn [do_call kin_call].
  - apply kin_interactive.
  - apply kin_connect.
  - apply kin_moveto.
  - apply kin_lineto.
  - apply kin_confirmColorChange.
  - rewrite outlinePage_motions. apply kin_do_motions.
  - reflexivity.
  - apply kin_disconnect.
Qed.

Lemma kin_do_calls cs : forall p,
  kin (do_calls cs p)
  = fold_left (fun k c => kin_call (geometry p) c k) cs (kin p).
Proof.
  induction cs as [|c cs IH]; intros p; [reflexivity|].
  cbn [do_calls fold_left]. fold (do_calls cs (do_call c p)).
  rewrite IH, do_call_geometry, kin_do_call. reflexivity.
Qed.

Lemma kin_call_same_bbox g1 g2 c k :
  bbox_of g1 = bbox_of g2 -> kin_call g1 c k = kin_call g2 c k.
Proof.
  unfold bbox_of. intros Hb. injection Hb as Hx0 Hy0 Hx1 Hy1.
  destruct c; cbn [kin_call]; try reflexivity.
  unfold outline_motions. now rewrite Hx0, Hy0, Hx1, Hy1.
Qed.

Lemma new_plotter_bbox ts ud out d bbox lpx :
  bbox_of (geometry (new_plotter ts ud out d bbox lpx)) = bbox.
Proof. destruct bbox as [[[x0 y0] x1] y1]. destruct ud; reflexivity. Qed.

Lemma new_plotter_kin ts ud out d bbox lpx :
  kin (new_plotter ts ud out d bbox lpx) = (None, 0, 0).
Proof. destruct bbox as [[[x0 y0] x1] y1]. destruct ud; reflexivity. Qed.

Lemma kin_motion_ordered m k : kin_ordered k -> kin_ordered (kin_motion m k).
Proof.
  destruct k as [[pos t] d]. unfold kin_ordered. cbn [kin_motion fst snd].
  intros Hk. destruct pos as [a|]; cbn [fst snd]; [|exact Hk].
  pose proof (segment_len_nonneg a (target m)) as Hseg.
  destruct (pen_down m); lra.
Qed.

Lemma kin_motions_ordered ms : forall k,
  kin_ordered k -> kin_ordered (kin_motions ms k).
Proof.
  induction ms as [|m ms IH]; intros k Hk; [exact Hk|].
  cbn [kin_motions fold_left]. apply IH. now apply kin_motion_ordered.
Qed.

Lemma kin_call_ordered g c k : kin_ordered k -> kin_ordered (kin_call g c k).
Proof.
  intros Hk. destruct c; cbn [kin_call]; auto using kin_motion_ordered.
  now apply kin_motions_ordered.
Qed.

Lemma kin_calls_ordered g cs : forall k,
  kin_ordered k ->
  kin_ordered (fold_left (fun k' c => kin_call g c k') cs k).
Proof.
  induction cs as [|c cs IH]; intros k Hk; [exact Hk|].
  cbn [fold_left]. apply IH. now apply kin_call_ordered.
Qed.

Lemma kin_calls_same_bbox g1 g2 cs :
  bbox_of g1 = bbox_of g2 ->
  forall k,
    fold_left (fun k' c => kin_call g1 c k') cs k
    = fold_left (fun k' c => kin_call g2 c k') cs k.
Proof.
  intros Hb. induction cs as [|c cs IH]; intros k; [reflexivity|].
  cbn [fold_left]. rewrite (kin_call_same_bbox g1 g2 c k Hb). apply IH.
Qed.

(** X1. Whatever is called on a plotter, in either mode, the drawn length
    is never negative and never more than the travel distance. *)
Theorem drawn_length_within_travel
  (ts : string) (ud : bool) (out : string) (d : Z) (bbox : R * R * R * R)
  (lpx : Z) (cs : list call) :
  let p := do_calls cs (new_plotter ts ud out d bbox lpx) in
  0 <= _drawn_length_in p <= _pen_distance_in p.
Proof.
  intros p.
  pose proof (kin_do_calls cs (new_plotter ts ud out d bbox lpx)) as Hk.
  fold p in Hk. rewrite new_plotter_kin in Hk.
  assert (Hord : kin_ordered (kin p)).
  { rewrite Hk. apply kin_calls_ordered. unfold kin_ordered. cbn. lra. }
  exact Hord.
Qed.

(** X2. The position of the pen and the two accumulators do not depend on
    the mode: the same calls on a device-mode and on an image-mode plotter
    with the same page leave the same position, travel and drawn
    length. *)
Theorem pen_state_same_in_both_modes
  (ts1 ts2 out1 out2 : string) (d1 d2 lpx1 lpx2 : Z)
  (bbox : R * R * R * R) (cs : list call) :
  let on_device := do_calls cs (new_plotter ts1 true out1 d1 bbox lpx1) in
  let on_image := do_calls cs (new_plotter ts2 false out2 d2 bbox lpx2) in
  _pos on_device = _pos on_image
  /\ _pen_distance_in on_device = _pen_distance_in on_image
  /\ _drawn_length_in on_device = _drawn_length_in on_image.
Proof.
  intros on_device on_image.
  assert (Hkin : kin on_device = kin on_image).
  { unfold on_device, on_image. rewrite !kin_do_calls, !new_plotter_kin.
    apply kin_calls_same_bbox. now rewrite !new_plotter_bbox. }
  unfold kin in Hkin. injection Hkin as Hp Ht Hd. auto.
Qed.

(* ================================================================== *)
(** * What each mode touches *)
(* ================================================================== *)

Lemma confirmColorChange_image n i p :
  use_device (geometry p) = false ->
  confirmColorChange n i p
  = log_append (ColorChange n)
      (set_stroke n (color_of_name n) (moveto 0 0 p)).
Proof.
  intros Hmode. unfold confirmColorChange.
  now rewrite moveto_geometry, Hmode, rgb_for_name_str.
Qed.

Lemma confirmColorChange_device n i p :
  use_device (geometry p) = true ->
  confirmColorChange n i p
  = emit_all
      (ConsoleInput n :: (if i then [ConsolePrint MsgCancelled] else []))
      (moveto 0 0 p).
Proof.
  intros Hmode. unfold confirmColorChange.
  rewrite moveto_geometry, Hmode.
  destruct i; unfold emit, emit_all; cbn; rewrite <- ?app_assoc; reflexivity.
Qed.

Lemma do_motions_world_image ms p :
  use_device (geometry p) = false -> world (do_motions ms p) = world p.
Proof.
  intros Hmode. pose proof (do_motions_records ms p) as Hrec.
  rewrite Hmode in Hrec. tauto.
Qed.

Lemma do_call_world_image c p :
  use_device (geometry p) = false ->
  world (do_call c p)
  = world p ++ (if is_disconnect c then disconnect_events p else []).
Proof.
  intros Hmode.
  destruct c; cbn [do_call is_disconnect]; rewrite ?app_nil_r.
  - unfold interactive. now rewrite Hmode.
  - unfold connect. rewrite Hmode. now destruct (_options_snapshot p).
  - pose proof (moveto_records x y p) as Hrec. rewrite Hmode in Hrec. tauto.
  - pose proof (lineto_records x y p) as Hrec. rewrite Hmode in Hrec. tauto.
  - rewrite (confirmColorChange_image _ _ _ Hmode). cbn.
    pose proof (moveto_records 0 0 p) as Hrec. rewrite Hmode in Hrec. tauto.
  - rewrite outlinePage_motions. now apply do_motions_world_image.
  - reflexivity.
  - exact (disconnect_world p Hmode).
Qed.

Lemma disconnect_events_no_driver p :
  forallb (fun e => negb (is_driver_event e)) (disconnect_events p) = true.
Proof. reflexivity. Qed.

Lemma do_calls_world_image cs : forall p,
  use_device (geometry p) = false ->
  exists es,
    world (do_calls cs p) = world p ++ es
    /\ List.length es = (7 * List.length (filter is_disconnect cs))%nat
    /\ forallb (fun e => negb (is_driver_event e)) es = true.
Proof.
  induction cs as [|c cs IH]; intros p Hmode.
  - exists []. cbn. now rewrite app_nil_r.
  - cbn [do_calls fold_left]. fold (do_calls cs (do_call c p)).
    destruct (IH (do_call c p)) as [es [Hw [Hlen Hdev]]].
    { now rewrite do_call_geometry. }
    rewrite Hw, (do_call_world_image c p Hmode), <- app_assoc.
    eexists. split; [reflexivity|].
    rewrite length_app, forallb_app, Hlen, Hdev. cbn [filter].
    destruct (is_disconnect c).
    + rewrite disconnect_events_no_driver.
      change (List.length (disconnect_events (do_call c p))) with 7%nat.
      change (List.length (disconnect_events p)) with 7%nat.
      cbn [List.length]. split; [lia | reflexivity].
    + cbn. split; [lia | reflexivity].
Qed.

(** X3. An image-mode plotter never calls the driver, and nothing reaches
    the outside before [disconnect]: after any calls the events are those
    that were there, followed by seven events per [disconnect] (the image,
    the viewer, the script and four printed lines), none of them a call of
    the driver. *)
Theorem image_mode_never_calls_driver (p : DualPlotter) (cs : list call)
  (Hmode : use_device (geometry p) = false) :
  exists es,
    world (do_calls cs p) = world p ++ es
    /\ List.length es = (7 * List.length (filter is_disconnect cs))%nat
    /\ forallb (fun e => negb (is_driver_event e)) es = true.
Proof. now apply do_calls_world_image. Qed.

Lemma image_mode_never_calls_driver_witness :
  let p := default_plotter "0" false in
  let cs := [Connect true; Moveto 1 1; ConfirmColorChange "RED" false;
             Lineto 2 2; OutlinePage true] in
  exists es,
    world (do_calls cs p) = world p ++ es
    /\ List.length es = 0%nat
    /\ forallb (fun e => negb (is_driver_event e)) es = true.
Proof.
  exact (image_mode_never_calls_driver (default_plotter "0" false)
           [Connect true; Moveto 1 1; ConfirmColorChange "RED" false;
            Lineto 2 2; OutlinePage true] eq_refl).
Defined.

Lemma moveto_recorder_device x y p :
  use_device (geometry p) = true -> recorder (moveto x y p) = recorder p.
Proof.
  intros Hmode. unfold moveto. destruct (_pos p); cbn; rewrite Hmode;
    reflexivity.
Qed.

Lemma lineto_recorder_device x y p :
  use_device (geometry p) = true -> recorder (lineto x y p) = recorder p.
Proof.
  intros Hmode. unfold lineto. destruct (_pos p); cbn; rewrite Hmode;
    reflexivity.
Qed.

Lemma do_motions_recorder_device ms : forall p,
  use_device (geometry p) = true -> recorder (do_motions ms p) = recorder p.
Proof.
  induction ms as [|m ms IH]; intros p Hmode; [reflexivity|].
  cbn [do_motions fold_left]. fold (do_motions ms (do_motion m p)).
  rewrite IH by now rewrite do_motion_geometry.
  destruct m; cbn [do_motion];
    [now apply moveto_recorder_device | now apply lineto_recorder_device].
Qed.

Lemma do_call_device c p :
  use_device (geometry p) = true ->
  recorder (do_call c p) = recorder p
  /\ exists es,
       world (do_call c p) = world p ++ es
       /\ forallb (fun e => negb (is_artifact_event e)) es = true.
Proof.
  intros Hmode. destruct c; cbn [do_call].
  - unfold interactive, _apply_options, emit, emit_all. rewrite Hmode. cbn.
    split; [reflexivity|]. rewrite <- app_assoc.
    eexists. split; reflexivity.
  - unfold connect. rewrite Hmode. cbn.
    split; [reflexivity|]. eexists. split; reflexivity.
  - split; [now apply moveto_recorder_device|].
    pose proof (moveto_records x y p) as Hrec. rewrite Hmode in Hrec.
    eexists. split; [apply Hrec | reflexivity].
  - split; [now apply lineto_recorder_device|].
    pose proof (lineto_records x y p) as Hrec. rewrite Hmode in Hrec.
    eexists. split; [apply Hrec | reflexivity].
  - rewrite (confirmColorChange_device _ _ _ Hmode).
    pose proof (moveto_records 0 0 p) as Hrec. rewrite Hmode in Hrec.
    destruct Hrec as [Hw _].
    split; [exact (moveto_recorder_device 0 0 p Hmode)|].
    unfold emit_all. cbn [world set_world]. rewrite Hw, <- app_assoc.
    eexists. split; [reflexivity|]. now destruct interrupted.
  - rewrite outlinePage_motions.
    split; [now apply do_motions_recorder_device|].
    pose proof (do_motions_records (outline_motions do_dots (geometry p)) p)
      as Hrec.
    rewrite Hmode in Hrec. destruct Hrec as [Hw _].
    eexists. split; [exact Hw|]. now destruct do_dots.
  - split; [reflexivity|]. exists []. now rewrite app_nil_r.
  - unfold disconnect. rewrite Hmode. cbn.
    split; [reflexivity|]. eexists. split; reflexivity.
Qed.

(** X4. A device-mode plotter records nothing and writes nothing: after
    any calls the log, the image, the options snapshot and the stroke
    colour are what they were, and no event is a saved image, a written
    script or a viewer command. *)
Theorem device_mode_records_nothing (p : DualPlotter) (cs : list call)
  (Hmode : use_device (geometry p) = true) :
  _command_log (do_calls cs p) = _command_log p
  /\ _img (do_calls cs p) = _img p
  /\ _options_snapshot (do_calls cs p) = _options_snapshot p
  /\ _stroke_rgb (do_calls cs p) = _stroke_rgb p
  /\ exists es,
       world (do_calls cs p) = world p ++ es
       /\ forallb (fun e => negb (is_artifact_event e)) es = true.
Proof.
  assert (Hall : recorder (do_calls cs p) = recorder p
                 /\ exists es,
                      world (do_calls cs p) = world p ++ es
                      /\ forallb (fun e => negb (is_artifact_event e)) es
                         = true).
  { revert p Hmode. induction cs as [|c cs IH]; intros p Hmode.
    - split; [reflexivity|]. exists []. now rewrite app_nil_r.
    - cbn [do_calls fold_left]. fold (do_calls cs (do_call c p)).
      destruct (do_call_device c p Hmode) as [Hr1 [es1 [Hw1 Ha1]]].
      destruct (IH (do_call c p)) as [Hr2 [es2 [Hw2 Ha2]]].
      { now rewrite do_call_geometry. }
      split; [now rewrite Hr2|].
      exists (es1 ++ es2).
      rewrite Hw2, Hw1, <- app_assoc, forallb_app, Ha1, Ha2. auto. }
  destruct Hall as [Hrec Hworld].
  unfold recorder in Hrec. injection Hrec as Hl Hi Hs _ _ Hc. auto.
Qed.

Lemma device_mode_records_nothing_witness :
  let p := default_plotter "0" true in
  let cs := [Interactive; Connect true; Lineto 1 1;
             ConfirmColorChange "RED" true; OutlinePage true; Disconnect] in
  _command_log (do_calls cs p) = []
  /\ _img (do_calls cs p) = []
  /\ _options_snapshot (do_calls cs p) = None.
Proof.
  destruct (device_mode_records_nothing (default_plotter "0" true)
              [Interactive; Connect true; Lineto 1 1;
               ConfirmColorChange "RED" true; OutlinePage true; Disconnect]
              eq_refl) as [Hl [Hi [Hs _]]].
  cbv zeta. rewrite Hl, Hi, Hs. repeat split.
Defined.

(* ================================================================== *)
(** * The script and the image agree *)
(* ================================================================== *)

Lemma count_lineto_lines_app (s1 s2 : list script_line) :
  count_lineto_lines (s1 ++ s2)
  = (count_lineto_lines s1 + count_lineto_lines s2)%nat.
Proof. unfold count_lineto_lines. now rewrite filter_app, length_app. Qed.

Lemma count_lineto_lines_entries (log : list entry) :
  count_lineto_lines (flat_map script_of_entry log)
  = List.length (filter is_LineTo log).
Proof.
  induction log as [|e log IH]; [reflexivity|].
  cbn [flat_map filter]. rewrite count_lineto_lines_app, IH.
  destruct e; reflexivity.
Qed.

Lemma count_lineto_lines_body (log : list entry) :
  count_lineto_lines (replay_body log)
  = List.length (filter is_LineTo (replayed_entries log)).
Proof.
  destruct log as [|e log]; [reflexivity|].
  destruct e; cbn [replay_body replayed_entries];
    change (count_lineto_lines (Text ?t :: ?l)) with (count_lineto_lines l);
    apply count_lineto_lines_entries.
Qed.

Lemma count_lineto_lines_script (p : DualPlotter) :
  count_lineto_lines (replay_script p)
  = count_lineto_lines (replay_body (_command_log p)).
Proof.
  unfold replay_script. rewrite !count_lineto_lines_app.
  change (count_lineto_lines (replay_header _)) with 0%nat.
  change (count_lineto_lines replay_footer) with 0%nat. lia.
Qed.

(** One more entry on a log that is not empty. *)
Lemma count_lineto_lines_snoc (log : list entry) (e : entry) :
  log <> [] ->
  count_lineto_lines (replay_body (log ++ [e]))
  = (count_lineto_lines (replay_body log)
     + (if is_LineTo e then 1 else 0))%nat.
Proof.
  intros Hlog. rewrite !count_lineto_lines_body.
  destruct log as [|e0 log]; [contradiction|].
  assert (Hsnoc : forall l,
            List.length (filter is_LineTo (l ++ [e]))
            = (List.length (filter is_LineTo l)
               + (if is_LineTo e then 1 else 0))%nat).
  { intros l. rewrite filter_app, length_app. cbn.
    destruct (is_LineTo e); reflexivity. }
  destruct e0 as [x y|x y|name].
  - exact (Hsnoc (MoveTo x y :: log)).
  - exact (Hsnoc log).
  - exact (Hsnoc (ColorChange name :: log)).
Qed.

(** The first entry of a log gives no [lineto] line. *)
Lemma count_lineto_lines_first (e : entry) :
  count_lineto_lines (replay_body [e]) = 0%nat.
Proof. destruct e; reflexivity. Qed.

Lemma recorder_consistent_moveto x y p :
  recorder_consistent p -> recorder_consistent (moveto x y p).
Proof.
  intros [Hmode [Hpos Hcount]]. unfold recorder_consistent.
  rewrite moveto_geometry, moveto_pos.
  assert (Hlog : _command_log (moveto x y p) = _command_log p ++ [MoveTo x y]
                 /\ _img (moveto x y p) = _img p).
  { unfold moveto. destruct (_pos p); cbn; rewrite Hmode; auto. }
  destruct Hlog as [Hlog Himg]. rewrite Hlog, Himg.
  split; [exact Hmode|]. split.
  - split; [discriminate|]. intros Hnil. now destruct (app_eq_nil _ _ Hnil).
  - destruct (_command_log p) as [|e log] eqn:Hl.
    + rewrite <- Hcount. reflexivity.
    + rewrite count_lineto_lines_snoc, Hcount by discriminate.
      cbn [is_LineTo]. lia.
Qed.

Lemma recorder_consistent_lineto x y p :
  recorder_consistent p -> recorder_consistent (lineto x y p).
Proof.
  intros [Hmode [Hpos Hcount]]. unfold recorder_consistent.
  rewrite lineto_geometry, lineto_pos.
  split; [exact Hmode|].
  destruct (_pos p) as [a|] eqn:Hp.
  - assert (Hne : _command_log p <> []).
    { intros Hnil. apply Hpos in Hnil. discriminate. }
    assert (Hlog : _command_log (lineto x y p)
                   = _command_log p ++ [LineTo x y]
                   /\ List.length (_img (lineto x y p))
                      = S (List.length (_img p))).
    { unfold lineto. rewrite Hp. cbn. rewrite Hmode. cbn.
      split; [reflexivity|]. rewrite length_app. cbn. lia. }
    destruct Hlog as [Hlog Himg]. rewrite Hlog, Himg. split.
    + split; [discriminate|]. intros Hnil.
      now destruct (app_eq_nil _ _ Hnil).
    + rewrite count_lineto_lines_snoc, Hcount by exact Hne.
      cbn [is_LineTo]. lia.
  - assert (Hnil : _command_log p = []) by now apply Hpos.
    assert (Hlog : _command_log (lineto x y p) = [LineTo x y]
                   /\ _img (lineto x y p) = _img p).
    { unfold lineto. rewrite Hp. cbn. rewrite Hmode. cbn.
      now rewrite Hnil. }
    destruct Hlog as [Hlog Himg]. rewrite Hlog, Himg. split.
    + split; discriminate.
    + rewrite <- Hcount, Hnil. reflexivity.
Qed.

Lemma recorder_consistent_motions ms : forall p,
  recorder_consistent p -> recorder_consistent (do_motions ms p).
Proof.
  induction ms as [|m ms IH]; intros p Hp; [exact Hp|].
  cbn [do_motions fold_left]. fold (do_motions ms (do_motion m p)).
  apply IH. destruct m; cbn [do_motion];
    [now apply recorder_consistent_moveto
    | now apply recorder_consistent_lineto].
Qed.

(** A change that keeps the page, the position, the log and the image. *)
Lemma recorder_consistent_frame p q :
  geometry q = geometry p -> _pos q = _pos p ->
  _command_log q = _command_log p -> _img q = _img p ->
  recorder_consistent p -> recorder_consistent q.
Proof.
  unfold recorder_consistent. intros Hg Hpos Hlog Himg.
  now rewrite Hg, Hpos, Hlog, Himg.
Qed.

Lemma recorder_consistent_call c p :
  recorder_consistent p -> recorder_consistent (do_call c p).
Proof.
  intros Hp. pose proof Hp as [Hmode _].
  destruct c; cbn [do_call].
  - apply (recorder_consistent_frame p); auto.
    all: unfold interactive; now rewrite Hmode.
  - apply (recorder_consistent_frame p); auto.
    all: unfold connect; rewrite Hmode;
      now destruct (_options_snapshot p).
  - now apply recorder_consistent_moveto.
  - now apply recorder_consistent_lineto.
  - rewrite (confirmColorChange_image _ _ _ Hmode).
    destruct (recorder_consistent_moveto 0 0 p Hp) as [Hm [Hpos Hcount]].
    unfold recorder_consistent.
    cbn [geometry _pos _command_log _img log_append set_stroke
         set_command_log].
    split; [exact Hm|]. split.
    + rewrite moveto_pos. split; [discriminate|]. intros Hnil.
      now destruct (app_eq_nil _ _ Hnil).
    + rewrite count_lineto_lines_snoc, Hcount; [cbn [is_LineTo]; lia|].
      intros Hnil. apply Hpos in Hnil. rewrite moveto_pos in Hnil.
      discriminate.
  - rewrite outlinePage_motions. now apply recorder_consistent_motions.
  - exact Hp.
  - apply (recorder_consistent_frame p); auto.
    + apply disconnect_geometry.
    + pose proof (kin_disconnect p) as Hk. unfold kin in Hk.
      now injection Hk.
    + unfold disconnect, _write_replay_script. rewrite Hmode. cbn.
      now destruct (_options_snapshot p).
    + unfold disconnect, _write_replay_script. rewrite Hmode. cbn.
      now destruct (_options_snapshot p).
Qed.

Lemma recorder_consistent_calls cs : forall p,
  recorder_consistent p -> recorder_consistent (do_calls cs p).
Proof.
  induction cs as [|c cs IH]; intros p Hp; [exact Hp|].
  cbn [do_calls fold_left]. fold (do_calls cs (do_call c p)).
  apply IH. now apply recorder_consistent_call.
Qed.

Lemma new_plotter_consistent ts out d bbox lpx :
  recorder_consistent (new_plotter ts false out d bbox lpx).
Proof.
  destruct bbox as [[[x0 y0] x1] y1]. unfold recorder_consistent. cbn.
  repeat split; auto.
Qed.

(** X5. In every image-mode session the replay script has exactly one
    [lineto] line for each stroke drawn into the image: a [lineto] that
    only places the pen draws no stroke and is replayed as a [moveto]. *)
Theorem script_linetos_match_image_strokes
  (ts out : string) (d lpx : Z) (bbox : R * R * R * R) (cs : list call) :
  let p := do_calls cs (new_plotter ts false out d bbox lpx) in
  count_lineto_lines (replay_script p) = List.length (_img p).
Proof.
  intros p. rewrite count_lineto_lines_script.
  apply (recorder_consistent_calls cs).
  apply new_plotter_consistent.
Qed.

(* ================================================================== *)
(** * Finishing a session, and colours in the image *)
(* ================================================================== *)

Lemma disconnect_keeps_drawing p :
  use_device (geometry p) = false ->
  _command_log (disconnect p) = _command_log p
  /\ _img (disconnect p) = _img p
  /\ _options_snapshot (disconnect p) = Some (replay_options p).
Proof.
  intros Hmode. unfold disconnect, _write_replay_script, replay_options.
  rewrite Hmode. cbn.
  destruct (_options_snapshot p) eqn:Hsnap; cbn; rewrite ?Hsnap;
    repeat split; reflexivity.
Qed.

Lemma replay_script_after_disconnect p :
  use_device (geometry p) = false ->
  replay_script (disconnect p) = replay_script p.
Proof.
  intros Hmode.
  destruct (disconnect_keeps_drawing p Hmode) as [Hlog [_ Hsnap]].
  unfold replay_script. rewrite Hlog. f_equal.
  unfold replay_options at 1. now rewrite Hsnap.
Qed.

(** X6. [disconnect] does not end or reset an image-mode session: the
    position, the accumulators, the log and the image stay, so a second
    [disconnect] saves the same image, writes the same script and prints
    the same figures once more. *)
Theorem disconnect_twice_repeats_output (p : DualPlotter)
  (Hmode : use_device (geometry p) = false) :
  _pos (disconnect p) = _pos p
  /\ _command_log (disconnect p) = _command_log p
  /\ _img (disconnect p) = _img p
  /\ world (disconnect (disconnect p))
     = world p ++ disconnect_events p ++ disconnect_events p.
Proof.
  destruct (disconnect_keeps_drawing p Hmode) as [Hlog [Himg _]].
  pose proof (kin_disconnect p) as Hk. unfold kin in Hk.
  injection Hk as Hpos Ht Hd.
  assert (Hmode' : use_device (geometry (disconnect p)) = false)
    by now rewrite disconnect_geometry.
  repeat split; auto.
  pose proof (disconnect_world (disconnect p) Hmode') as Hw2.
  pose proof (disconnect_world p Hmode) as Hw1.
  cbv zeta in Hw1, Hw2.
  rewrite Hw2, Hw1, <- app_assoc. f_equal. f_equal.
  rewrite disconnect_geometry, Himg, Ht, Hd,
    (replay_script_after_disconnect p Hmode).
  reflexivity.
Qed.

Lemma disconnect_twice_repeats_output_witness :
  let p := do_calls [Moveto 1 1; Lineto 2 1] (default_plotter "0" false) in
  List.length (world (disconnect (disconnect p))) = 14%nat.
Proof.
  intros p.
  destruct (disconnect_twice_repeats_output p eq_refl) as [_ [_ [_ Hw]]].
  rewrite Hw. reflexivity.
Defined.

(** X7. In image mode the colour of a stroke is the colour of the last
    [confirmColorChange]: a line drawn right after it starts at the pixel
    of the origin, where the pen was parked, and is filled with the table
    colour of the name, black for a name the table does not have. *)
Theorem line_after_color_change_has_its_color
  (name : string) (interrupted : bool) (x y : R) (p : DualPlotter)
  (Hmode : use_device (geometry p) = false) :
  _img (lineto x y (confirmColorChange name interrupted p))
  = _img p ++ [ mk_stroke (_to_px p (0, 0)) (_to_px p (x, y))
                  (color_of_name name) (line_px (geometry p)) ]
  /\ (dict_get _COLOR_TABLE (upper (strip name)) = None ->
      color_of_name name = (0, 0, 0)%Z).
Proof.
  split.
  - rewrite (confirmColorChange_image _ _ _ Hmode).
    assert (Himg : _img (moveto 0 0 p) = _img p).
    { unfold moveto. destruct (_pos p); cbn; rewrite Hmode; reflexivity. }
    pose proof (moveto_pos 0 0 p) as Hpos.
    pose proof (moveto_geometry 0 0 p) as Hgeo.
    remember (moveto 0 0 p) as q eqn:Hq. clear Hq.
    unfold lineto, _to_px, log_append, set_stroke. cbn. rewrite Hpos. cbn.
    rewrite Hgeo, Hmode. cbn. now rewrite Himg.
  - intros Hnone. unfold color_of_name, dict_get_default. now rewrite Hnone.
Qed.

Lemma line_after_color_change_has_its_color_witness :
  let p := default_plotter "0" false in
  option_map px_fill
    (last_error
       (_img (lineto 1 1 (confirmColorChange " green" false p))))
  = Some (34, 139, 34)%Z.
Proof.
  intros p.
  destruct (line_after_color_change_has_its_color " green" false 1 1 p
              eq_refl) as [Himg _].
  rewrite Himg. reflexivity.
Defined.

(* ================================================================== *)
(** * Rounding, pixels and the page *)
(* ================================================================== *)

Lemma py_round_range (x : R) :
  (Zfloor x <= py_round x <= Zfloor x + 1)%Z.
Proof.
  unfold py_round.
  destruct (Rlt_dec (x - IZR (Zfloor x)) (1 / 2)); [lia|].
  destruct (Rgt_dec (x - IZR (Zfloor x)) (1 / 2)); [lia|].
  destruct (Z.even (Zfloor x)); lia.
Qed.

Lemma py_round_near (x : R) : Rabs (IZR (py_round x) - x) <= 1 / 2.
Proof.
  pose proof (Zfloor_bound x) as Hb. unfold py_round.
  destruct (Rlt_dec (x - IZR (Zfloor x)) (1 / 2)) as [Hlt|Hge].
  { apply Rabs_le. lra. }
  destruct (Rgt_dec (x - IZR (Zfloor x)) (1 / 2)) as [Hgt|Hle].
  { rewrite plus_IZR. apply Rabs_le. lra. }
  destruct (Z.even (Zfloor x)); rewrite ?plus_IZR; apply Rabs_le; lra.
Qed.

Lemma py_round_monotone (x y : R) : x <= y -> (py_round x <= py_round y)%Z.
Proof.
  intros Hxy.
  pose proof (Zfloor_le x y Hxy) as Hfl.
  destruct (Z.eq_dec (Zfloor x) (Zfloor y)) as [Heq|Hne].
  - unfold py_round. rewrite Heq.
    destruct (Rlt_dec (x - IZR (Zfloor y)) (1 / 2)) as [Hx1|Hx1];
      destruct (Rlt_dec (y - IZR (Zfloor y)) (1 / 2)) as [Hy1|Hy1];
      try lia; try lra.
    + destruct (Rgt_dec (y - IZR (Zfloor y)) (1 / 2));
        [|destruct (Z.even (Zfloor y))]; lia.
    + destruct (Rgt_dec (x - IZR (Zfloor y)) (1 / 2)) as [Hx2|Hx2];
        destruct (Rgt_dec (y - IZR (Zfloor y)) (1 / 2)) as [Hy2|Hy2];
        try lia; try lra.
      destruct (Z.even (Zfloor y)); lia.
  - pose proof (py_round_range x). pose proof (py_round_range y). lia.
Qed.

Lemma round3_near (x : R) : Rabs (round3 x - x) <= 0.0005.
Proof.
  unfold round3. pose proof (py_round_near (x * 1000)) as Hn.
  apply Rabs_le. unfold Rabs in Hn.
  destruct (Rcase_abs (IZR (py_round (x * 1000)) - x * 1000)); lra.
Qed.

Lemma round3_idempotent (x : R) : round3 (round3 x) = round3 x.
Proof.
  unfold round3 at 1 3.
  replace (round3 x * 1000) with (IZR (py_round (x * 1000)))
    by (unfold round3; field).
  now rewrite py_round_integer.
Qed.

(** X8. A coordinate of the replay script is within 0.0005 inch of the
    recorded one, and rounding it again changes nothing: this holds of
    the [moveto] and of the [lineto] line of every log entry. *)
Theorem replayed_coordinates_are_near (x y : R) :
  script_of_entry (MoveTo x y) = [CallMoveTo (round3 x) (round3 y) false]
  /\ script_of_entry (LineTo x y) = [CallLineTo (round3 x) (round3 y)]
  /\ Rabs (round3 x - x) <= 0.0005
  /\ Rabs (round3 y - y) <= 0.0005
  /\ script_of_entry (MoveTo (round3 x) (round3 y))
     = script_of_entry (MoveTo x y)
  /\ script_of_entry (LineTo (round3 x) (round3 y))
     = script_of_entry (LineTo x y).
Proof.
  repeat split; try apply round3_near; cbn [script_of_entry];
    now rewrite !round3_idempotent.
Qed.

Lemma to_px_monotone (p : DualPlotter) (x1 y1 x2 y2 : R) :
  (0 <= dpi (geometry p))%Z ->
  (x1 <= x2 -> (fst (_to_px p (x1, y1)) <= fst (_to_px p (x2, y2)))%Z)
  /\ (y1 <= y2 -> (snd (_to_px p (x2, y2)) <= snd (_to_px p (x1, y1)))%Z).
Proof.
  intros Hdpi. apply IZR_le in Hdpi. unfold _to_px. cbn [fst snd].
  split; intros Hle; apply py_round_monotone; nra.
Qed.

(** X9. [_to_px] puts the corner (xmin, ymax) of the page on pixel (0, 0)
    and flips the vertical axis: with a resolution that is not negative, a
    larger x never gives a smaller column and a larger y never gives a
    larger row. *)
Theorem to_px_flips_vertical_axis (p : DualPlotter) (x1 y1 x2 y2 : R)
  (Hdpi : (0 <= dpi (geometry p))%Z) :
  _to_px p (xmin (geometry p), ymax (geometry p)) = (0, 0)%Z
  /\ (x1 <= x2 -> (fst (_to_px p (x1, y1)) <= fst (_to_px p (x2, y2)))%Z)
  /\ (y1 <= y2 -> (snd (_to_px p (x2, y2)) <= snd (_to_px p (x1, y1)))%Z).
Proof.
  split; [|now apply to_px_monotone].
  unfold _to_px.
  replace ((xmin (geometry p) - xmin (geometry p)) * IZR (dpi (geometry p)))
    with (IZR 0) by (cbn; ring).
  replace ((ymax (geometry p) - ymax (geometry p)) * IZR (dpi (geometry p)))
    with (IZR 0) by (cbn; ring).
  now rewrite py_round_integer.
Qed.

Lemma to_px_flips_vertical_axis_witness :
  let p := default_plotter "0" false in
  _to_px p (0, 8.27) = (0, 0)%Z
  /\ (snd (_to_px p (2, 3)%R) <= snd (_to_px p (1, 1)%R))%Z.
Proof.
  intros p.
  destruct (to_px_flips_vertical_axis p 1 1 2 3 ltac:(cbn; lia))
    as [Hcorner [_ Hrow]].
  split; [exact Hcorner|]. apply Hrow. lra.
Defined.

Lemma py_max_0_diff (a b : R) : a <= b -> py_max 0 (b - a) = b - a.
Proof. intros Hab. unfold py_max. destruct (Rlt_dec 0 (b - a)); lra. Qed.

(** X10. On a plotter built for a page with xmin <= xmax and
    ymin <= ymax and a resolution that is not negative, every point of the
    page has its pixel between (0, 0) and (W, H), bounds included; the
    corner (xmax, ymin) falls on column W and row H, one past the last
    pixel of the image, as soon as the rounded size is not below 1. *)
Theorem page_points_map_into_raster
  (ts : string) (ud : bool) (out : string) (d lpx : Z)
  (x0 y0 x1 y1 x y : R)
  (Hdpi : (0 <= d)%Z) (Hx : x0 <= x <= x1) (Hy : y0 <= y <= y1) :
  let p := new_plotter ts ud out d (x0, y0, x1, y1) lpx in
  (0 <= fst (_to_px p (x, y)) <= W (geometry p))%Z
  /\ (0 <= snd (_to_px p (x, y)) <= H (geometry p))%Z
  /\ Z.max 1 (fst (_to_px p (x1, y0))) = W (geometry p)
  /\ Z.max 1 (snd (_to_px p (x1, y0))) = H (geometry p).
Proof.
  intros p.
  assert (Hgeo : geometry p
                 = mk_page ud out d lpx x0 y0 x1 y1
                     (Z.max 1 (py_round (py_max 0 (x1 - x0) * IZR d)))
                     (Z.max 1 (py_round (py_max 0 (y1 - y0) * IZR d)))
                     ("zout/z" ++ ts ++ ".py")%string).
  { unfold p, new_plotter. destruct ud; reflexivity. }
  unfold _to_px. rewrite Hgeo. cbn [xmin ymax dpi W H fst snd].
  rewrite !py_max_0_diff by lra.
  apply IZR_le in Hdpi.
  assert (H0 : py_round 0 = 0%Z) by apply (py_round_integer 0).
  assert (Hmx : forall a b, a <= b -> (py_round a <= py_round b)%Z)
    by apply py_round_monotone.
  pose proof (Hmx 0 ((x - x0) * IZR d) ltac:(nra)).
  pose proof (Hmx ((x - x0) * IZR d) ((x1 - x0) * IZR d) ltac:(nra)).
  pose proof (Hmx 0 ((y1 - y) * IZR d) ltac:(nra)).
  pose proof (Hmx ((y1 - y) * IZR d) ((y1 - y0) * IZR d) ltac:(nra)).
  repeat split; try lia.
Qed.

Lemma page_points_map_into_raster_witness :
  let p := default_plotter "0" false in
  (0 <= fst (_to_px p (5, 4)%R) <= W (geometry p))%Z
  /\ (0 <= snd (_to_px p (5, 4)%R) <= H (geometry p))%Z.
Proof.
  intros p.
  destruct (page_points_map_into_raster "0" false (default_out_path "0")
              100 1 0 0 11.69 8.27 5 4
              ltac:(lia) ltac:(lra) ltac:(lra)) as [Hcol [Hrow _]].
  split; [exact Hcol | exact Hrow].
Defined.

(* ================================================================== *)
(** * Drawing text is a sequence of positioning calls *)
(* ================================================================== *)

Lemma ad_motions_app {A : Type} `{Plotting A} (ms1 ms2 : list motion)
  (ad : A) :
  ad_motions (ms1 ++ ms2) ad = ad_motions ms2 (ad_motions ms1 ad).
Proof. unfold ad_motions. apply fold_left_app. Qed.

Lemma ad_motions_plotter (ms : list motion) (p : DualPlotter) :
  ad_motions ms p = do_motions ms p.
Proof. reflexivity. Qed.

Lemma draw_polyline_motions {A : Type} `{Plotting A} (ad : A)
  (poly : list (R * R)) (ox oy sx sy : R) :
  draw_polyline ad poly ox oy sx sy
  = ad_motions (polyline_motions poly ox oy sx sy) ad.
Proof.
  destruct poly as [|[px py] rest]; [reflexivity|].
  unfold draw_polyline, polyline_motions, ad_motions.
  cbn [fold_left ad_motion].
  generalize (ad_moveto (ox + px * sx) (oy + py * sy) ad).
  induction rest as [|pt rest IH]; intros a; [reflexivity|].
  cbn [fold_left map]. apply IH.
Qed.

Lemma draw_strokes_motions {A : Type} `{Plotting A}
  (strokes : list (list (R * R))) (x y sx sy : R) : forall ad : A,
  fold_left (fun a stroke => draw_polyline a stroke x y sx sy) strokes ad
  = ad_motions
      (flat_map (fun stroke => polyline_motions stroke x y sx sy) strokes)
      ad.
Proof.
  induction strokes as [|s strokes IH]; intros ad; [reflexivity|].
  cbn [fold_left flat_map].
  rewrite ad_motions_app, IH, draw_polyline_motions. reflexivity.
Qed.

Lemma draw_glyph_motions {A : Type} `{Plotting A} (ad : A) (ch : string)
  (x y height_in tracking_in : R) :
  draw_glyph ad ch x y height_in tracking_in
  = (GLYPH_WIDTH_EM * height_in + tracking_in,
     ad_motions (glyph_motions ch x y height_in) ad).
Proof.
  unfold draw_glyph, glyph_motions. now rewrite draw_strokes_motions.
Qed.

Lemma draw_chars_motions {A : Type} `{Plotting A}
  (baseline_y_in h ls : R) (ws : option R) (chars : list ascii) :
  forall (cursor_x : R) (ad : A),
    snd (fold_left (draw_char baseline_y_in h ls ws) chars (cursor_x, ad))
    = ad_motions (chars_motions chars cursor_x baseline_y_in h ls ws) ad.
Proof.
  induction chars as [|ch chars IH]; intros cursor_x ad; [reflexivity|].
  cbn [fold_left chars_motions].
  unfold draw_char at 2. rewrite draw_glyph_motions.
  destruct ws as [v|];
    [destruct (String.eqb (String (lower_char ch) EmptyString) " ")|];
    rewrite IH, ?ad_motions_app; reflexivity.
Qed.

Lemma draw_text_line_motions {A : Type} `{Plotting A} (ad : A)
  (text : string) (ox baseline h ls : R) (ws : option R) (scale : R) :
  draw_text_line ad text ox baseline h ls ws scale
  = ad_motions (text_motions text ox baseline h ls ws scale) ad.
Proof.
  unfold draw_text_line, draw_text_line_cursor, text_motions.
  apply draw_chars_motions.
Qed.



(** X11. [draw_text_line] does nothing to a plotter but call [moveto] and
    [lineto]: one [moveto] to the first point of each stroke of each glyph
    and a [lineto] to each further point, glyph after glyph from left to
    right.  In image mode the log grows by just these calls, and in device
    mode the driver receives just these calls. *)
Theorem draw_text_line_is_moves_and_lines (p : DualPlotter) (text : string)
  (ox baseline h ls : R) (ws : option R) (scale : R) :
  let ms := text_motions text ox baseline h ls ws scale in
  let drawn := draw_text_line p text ox baseline h ls ws scale in
  drawn = do_motions ms p
  /\ (if use_device (geometry p)
      then world drawn = world p ++ map dev_event_of ms
           /\ _command_log drawn = _command_log p
      else _command_log drawn = _command_log p ++ map entry_of ms
           /\ world drawn = world p).
Proof.
  intros ms drawn.
  assert (Hdrawn : drawn = do_motions ms p).
  { unfold drawn, ms. now rewrite draw_text_line_motions. }
  split; [exact Hdrawn|]. rewrite Hdrawn. apply do_motions_records.
Qed.

(* ================================================================== *)
(** * Scaling the text *)
(* ================================================================== *)













(* ================================================================== *)
(** * The rotating proxy *)
(* ================================================================== *)










Lemma draw_wrapped_text_result {A : Type} `{Plotting A} (ad : A)
  (text : string) (ox baseline h mw ls : R) (ws lsp : option R)
  (scale : R) :
  fst (draw_wrapped_text ad text ox baseline h mw ls ws lsp scale)
  = if truthy (split text)
    then Some (List.length (wrap_words (split text) h mw ls ws))
    else None.
Proof.
  unfold draw_wrapped_text. now destruct (split text).
Qed.





(* ================================================================== *)
(** * Lines of words: drawn width, number of lines, text that fits *)
(* ================================================================== *)


Lemma isspace_space : isspace " "%char = true.
Proof. reflexivity. Qed.









Lemma length_groups_le (groups : list (list string)) :
  Forall (fun g => g <> []) groups ->
  (List.length groups <= List.length (List.concat groups))%nat.
Proof.
  induction 1 as [|g groups Hg Hgroups IH]; [reflexivity|].
  cbn [List.concat List.length]. rewrite length_app.
  destruct g; [contradiction|]. cbn [List.length]. lia.
Qed.

(** X16. [draw_wrapped_text] returns [None] exactly for a text without a
    word; for any other text it returns the number of lines, which is at
    least 1 and at most the number of words. *)
Theorem wrapped_line_count_bounds {A : Type} `{Plotting A} (ad : A)
  (text : string) (ox baseline h mw ls : R) (ws lsp : option R)
  (scale : R) :
  match fst (draw_wrapped_text ad text ox baseline h mw ls ws lsp scale) with
  | None => split text = []
  | Some n => (1 <= n <= List.length (split text))%nat
  end.
Proof.
  rewrite draw_wrapped_text_result.
  destruct (wrap_words_groups h mw ls ws (split text))
    as [groups [Hl [Hcat Hfit]]].
  rewrite Hl, length_map.
  destruct (split text) as [|w words] eqn:Hsplit; cbn [truthy];
    [reflexivity|].
  assert (Hne : Forall (fun g : list string => g <> []) groups).
  { eapply Forall_impl; [|exact Hfit]. now intros g [Hg _]. }
  pose proof (length_groups_le groups Hne) as Hle. rewrite Hcat in Hle.
  split; [|exact Hle].
  destruct groups; [discriminate | cbn; lia].
Qed.






Lemma split_from_joint (a b : string) : forall cur,
  split_from cur (a ++ String " "%char b) = split_from cur a ++ split b.
Proof.
  induction a as [|c a IH]; intros cur.
  - cbn [append split_from]. rewrite isspace_space.
    destruct cur; reflexivity.
  - cbn [append split_from]. destruct (isspace c); [|apply IH].
    destruct cur; cbn [app]; now rewrite IH.
Qed.

Lemma split_join_lines (lines : list string) :
  split (join " " lines) = List.concat (map split lines).
Proof.
  induction lines as [|l lines IH]; [reflexivity|].
  destruct lines as [|l' lines].
  - cbn. now rewrite app_nil_r.
  - change (join " " (l :: l' :: lines))
      with (l ++ String " "%char (join " " (l' :: lines)))%string.
    unfold split at 1. rewrite split_from_joint, IH. reflexivity.
Qed.

(** X18. The wrap rearranges the white space of a text and nothing else:
    the wrapped lines, joined by single spaces, split into the words of
    the text, in the same order. *)
Theorem wrapped_lines_keep_the_words (text : string) (h mw ls : R)
  (ws : option R) :
  split (join " " (wrap_words (split text) h mw ls ws)) = split text.
Proof.
  rewrite split_join_lines.
  destruct (wrap_words_groups h mw ls ws (split text))
    as [groups [Hl [Hcat _]]].
  rewrite Hl, map_split_join; [exact Hcat|].
  apply Forall_concat_words. rewrite Hcat. apply split_words.
Qed.

(* ================================================================== *)
(** * Replaying the script *)
(* ================================================================== *)

Lemma kin_motions_app (ms1 ms2 : list motion) (k : kinematics) :
  kin_motions (ms1 ++ ms2) k = kin_motions ms2 (kin_motions ms1 k).
Proof. unfold kin_motions. apply fold_left_app. Qed.

Lemma log_motions_app (l1 l2 : list entry) :
  log_motions (l1 ++ l2) = log_motions l1 ++ log_motions l2.
Proof. unfold log_motions. apply flat_map_app. Qed.

Lemma script_motions_app (s1 s2 : list script_line) :
  script_motions (s1 ++ s2) = script_motions s1 ++ script_motions s2.
Proof. unfold script_motions. apply flat_map_app. Qed.

Lemma parked_app (l1 l2 : list entry) : forall prev t d,
  parked prev (l1 ++ l2)
  <-> parked prev l1
      /\ parked (fst (fst (kin_motions (log_motions l1) (prev, t, d)))) l2.
Proof.
  induction l1 as [|e l1 IH]; intros prev t d.
  - cbn. tauto.
  - destruct e as [x y|x y|n]; cbn [app parked].
    + change (log_motions (MoveTo x y :: l1))
        with (PenUp x y :: log_motions l1).
      change (kin_motions (PenUp x y :: log_motions l1) (prev, t, d))
        with (kin_motions (log_motions l1)
                (kin_motion (PenUp x y) (prev, t, d))).
      destruct prev as [a|]; cbn [kin_motion target]; apply IH.
    + change (log_motions (LineTo x y :: l1))
        with (PenDown x y :: log_motions l1).
      change (kin_motions (PenDown x y :: log_motions l1) (prev, t, d))
        with (kin_motions (log_motions l1)
                (kin_motion (PenDown x y) (prev, t, d))).
      destruct prev as [a|]; cbn [kin_motion target]; apply IH.
    + change (log_motions (ColorChange n :: l1)) with (log_motions l1).
      rewrite (IH prev t d). tauto.
Qed.

Lemma log_motions_snoc (log : list entry) (m : motion) :
  log_motions (log ++ [entry_of m]) = log_motions log ++ [m].
Proof. rewrite log_motions_app. now destruct m. Qed.

Lemma kin_motion_pos (m : motion) (k : kinematics) :
  fst (fst (kin_motion m k)) = Some (target m).
Proof. destruct k as [[[a|] t] d]; reflexivity. Qed.

Lemma log_faithful_motion (m : motion) (p : DualPlotter) :
  log_faithful p -> log_faithful (do_motion m p).
Proof.
  intros [Hmode [Hkin Hpark]]. unfold log_faithful.
  rewrite do_motion_geometry.
  pose proof (do_motion_records m p) as Hrec. rewrite Hmode in Hrec.
  destruct Hrec as [Hlog _]. rewrite Hlog, log_motions_snoc.
  assert (Hk : kin (do_motion m p) = kin_motion m (kin p)).
  { destruct m; [apply kin_moveto | apply kin_lineto]. }
  split; [exact Hmode|]. split.
  - rewrite Hk, Hkin, kin_motions_app. reflexivity.
  - apply (parked_app _ _ None 0 0). split; [exact Hpark|].
    now destruct m.
Qed.

Lemma log_faithful_motions (ms : list motion) : forall p,
  log_faithful p -> log_faithful (do_motions ms p).
Proof.
  induction ms as [|m ms IH]; intros p Hp; [exact Hp|].
  cbn [do_motions fold_left]. fold (do_motions ms (do_motion m p)).
  apply IH. now apply log_faithful_motion.
Qed.

Lemma log_faithful_frame (p q : DualPlotter) :
  geometry q = geometry p -> kin q = kin p ->
  _command_log q = _command_log p ->
  log_faithful p -> log_faithful q.
Proof.
  unfold log_faithful. intros Hg Hk Hl. now rewrite Hg, Hk, Hl.
Qed.

Lemma log_faithful_call (c : call) (p : DualPlotter) :
  log_faithful p -> log_faithful (do_call c p).
Proof.
  intros Hp. pose proof Hp as [Hmode _].
  destruct c; cbn [do_call].
  - apply (log_faithful_frame p); auto using kin_interactive.
    all: unfold interactive; now rewrite Hmode.
  - apply (log_faithful_frame p); auto using kin_connect, connect_geometry.
    unfold connect. rewrite Hmode. now destruct (_options_snapshot p).
  - exact (log_faithful_motion (PenUp x y) p Hp).
  - exact (log_faithful_motion (PenDown x y) p Hp).
  - destruct (log_faithful_motion (PenUp 0 0) p Hp) as [Hm [Hkin Hpark]].
    cbn [do_motion] in Hm, Hkin, Hpark.
    rewrite (confirmColorChange_image _ _ _ Hmode).
    unfold log_faithful.
    cbn [geometry _command_log log_append set_stroke set_command_log].
    split; [exact Hm|]. split.
    + rewrite log_motions_app. cbn [log_motions flat_map].
      rewrite app_nil_r. exact Hkin.
    + apply (parked_app _ _ None 0 0). split; [exact Hpark|].
      cbn [parked]. split; [|exact I].
      unfold kin_start in Hkin. rewrite <- Hkin. cbn [kin fst].
      apply moveto_pos.
  - rewrite outlinePage_motions. now apply log_faithful_motions.
  - exact Hp.
  - apply (log_faithful_frame p);
      auto using kin_disconnect, disconnect_geometry.
    now destruct (disconnect_keeps_drawing p Hmode).
Qed.

Lemma log_faithful_calls (cs : list call) : forall p,
  log_faithful p -> log_faithful (do_calls cs p).
Proof.
  induction cs as [|c cs IH]; intros p Hp; [exact Hp|].
  cbn [do_calls fold_left]. fold (do_calls cs (do_call c p)).
  apply IH. now apply log_faithful_call.
Qed.

Lemma new_plotter_log_faithful ts out d bbox lpx :
  log_faithful (new_plotter ts false out d bbox lpx).
Proof.
  destruct bbox as [[[x0 y0] x1] y1]. unfold log_faithful. cbn. auto.
Qed.

Lemma replayed_entries_same_state (log : list entry) : forall k,
  parked (fst (fst k)) log -> Forall rounded_entry log ->
  kin_motions (script_motions (flat_map script_of_entry log)) k
  = kin_motions (log_motions log) k.
Proof.
  induction log as [|e log IH]; intros k Hpark Hround; [reflexivity|].
  apply Forall_cons_iff in Hround. destruct Hround as [He Hround].
  cbn [flat_map]. rewrite script_motions_app, kin_motions_app.
  destruct e as [x y|x y|n]; cbn [parked] in Hpark; cbn [rounded_entry] in He.
  - destruct He as [Hx Hy]. cbn [script_of_entry script_motions flat_map app].
    rewrite Hx, Hy. cbn [log_motions flat_map app].
    cbn [kin_motions fold_left].
    apply IH; [now rewrite kin_motion_pos | exact Hround].
  - destruct He as [Hx Hy]. cbn [script_of_entry script_motions flat_map app].
    rewrite Hx, Hy. cbn [log_motions flat_map app].
    cbn [kin_motions fold_left].
    apply IH; [now rewrite kin_motion_pos | exact Hround].
  - destruct Hpark as [Hpos Hpark].
    cbn [script_of_entry script_motions flat_map app log_motions].
    destruct k as [[pos t] d]. cbn [fst] in Hpos, Hpark. subst pos.
    cbn [kin_motions fold_left kin_motion target].
    rewrite segment_len_same, Rplus_0_r. cbn [pen_down].
    now apply IH.
Qed.

Lemma replayed_body_same_state (log : list entry) :
  parked None log -> Forall rounded_entry log ->
  kin_motions (script_motions (replay_body log)) kin_start
  = kin_motions (log_motions log) kin_start.
Proof.
  intros Hpark Hround. destruct log as [|e log]; [reflexivity|].
  destruct e as [x y|x y|n].
  - apply (replayed_entries_same_state (MoveTo x y :: log) kin_start);
      assumption.
  - apply Forall_cons_iff in Hround. destruct Hround as [[Hx Hy] Hround].
    cbn [replay_body]. cbn [script_motions flat_map app].
    fold (script_motions (flat_map script_of_entry log)).
    rewrite Hx, Hy. cbn [log_motions flat_map app]. fold (log_motions log).
    cbn [kin_motions fold_left].
    fold (kin_motions (script_motions (flat_map script_of_entry log))
            (kin_motion (PenUp x y) kin_start)).
    fold (kin_motions (log_motions log) (kin_motion (PenDown x y) kin_start)).
    change (kin_motion (PenDown x y) kin_start)
      with (kin_motion (PenUp x y) kin_start).
    apply replayed_entries_same_state; [exact Hpark | exact Hround].
  - destruct Hpark as [Hnone _]. discriminate.
Qed.

(** X19. Replay reproduces the pen's path.  Take any image-mode session
    whose recorded coordinates have at most three decimals, and make the
    [moveto] and [lineto] calls of its replay script, in order, on a new
    plotter: the pen ends at the same position, with the same travel and
    the same drawn length as in the session. *)
Theorem replay_reproduces_pen_state
  (ts out : string) (d lpx : Z) (bbox : R * R * R * R) (cs : list call)
  (ts' : string) (ud' : bool) (out' : string) (d' lpx' : Z)
  (bbox' : R * R * R * R)
  (Hrounded :
     Forall rounded_entry
       (_command_log (do_calls cs (new_plotter ts false out d bbox lpx)))) :
  let session := do_calls cs (new_plotter ts false out d bbox lpx) in
  let replayed :=
    do_motions (script_motions (replay_script session))
      (new_plotter ts' ud' out' d' bbox' lpx') in
  _pos replayed = _pos session
  /\ _pen_distance_in replayed = _pen_distance_in session
  /\ _drawn_length_in replayed = _drawn_length_in session.
Proof.
  intros session replayed.
  destruct (log_faithful_calls cs _ (new_plotter_log_faithful ts out d bbox
                                       lpx)) as [_ [Hkin Hpark]].
  fold session in Hkin, Hpark, Hrounded.
  assert (Hsame : kin replayed = kin session).
  { unfold replayed. rewrite kin_do_motions, new_plotter_kin, Hkin.
    unfold replay_script. rewrite !script_motions_app.
    change (script_motions (replay_header _)) with (@nil motion).
    change (script_motions replay_footer) with (@nil motion).
    rewrite app_nil_r. cbn [app].
    now apply replayed_body_same_state. }
  unfold kin in Hsame. injection Hsame as Hp Ht Hd. auto.
Qed.

Lemma replay_reproduces_pen_state_witness :
  let cs := [Lineto 1 1; Moveto 2 1; ConfirmColorChange "RED" false;
             Lineto 0 3] in
  let session := do_calls cs (default_plotter "0" false) in
  let replayed :=
    do_motions (script_motions (replay_script session))
      (default_plotter "1" true) in
  _command_log session
  = [LineTo 1 1; MoveTo 2 1; MoveTo 0 0; ColorChange "RED"; LineTo 0 3]
  /\ _pos replayed = _pos session
  /\ _pen_distance_in replayed = _pen_distance_in session
  /\ _drawn_length_in replayed = _drawn_length_in session.
Proof.
  split; [reflexivity|].
  apply (replay_reproduces_pen_state "0" (default_out_path "0") 100 1
           default_page_bbox_inches
           [Lineto 1 1; Moveto 2 1; ConfirmColorChange "RED" false;
            Lineto 0 3]
           "1" true (default_out_path "1") 100 1 default_page_bbox_inches).
  change (Forall rounded_entry
            [LineTo 1 1; MoveTo 2 1; MoveTo 0 0; ColorChange "RED";
             LineTo 0 3]).
  repeat constructor; apply (round3_integer _).
Defined.

(* ================================================================== *)
(** * Envelopes: address lines and the rows that are done *)
(* ================================================================== *)









Lemma dict_get_set_same {V : Type} (d : list (string * V)) (k : string)
  (v : V) :
  dict_get (dict_set d k v) k = Some v.
Proof.
  induction d as [|[k0 v0] d IH]; cbn [dict_set dict_get].
  - now rewrite String.eqb_refl.
  - destruct (String.eqb k0 k) eqn:Hk; cbn [dict_get]; rewrite Hk;
      [reflexivity | exact IH].
Qed.




(** X22. The line counter does not count: [increment_line_count] writes
    the new value to the file, but since [_read_int_from_file] returns 0
    without reading, [read_line_count] stays 0 and a second increment
    starts from 0 again, whatever the files hold. *)
Theorem line_count_is_never_read_back (n m : Z) (filename : string)
  (fs : list (string * string)) :
  let '(v1, fs1) := increment_line_count n filename fs in
  v1 = Z.max 0 n
  /\ dict_get fs1 filename = Some (str_of_int (Z.max 0 n))
  /\ read_line_count filename fs1 = 0%Z
  /\ fst (increment_line_count m filename fs1) = Z.max 0 m.
Proof.
  unfold increment_line_count, read_line_count, _read_int_from_file.
  cbn [fst]. rewrite !Z.add_0_l, dict_get_set_same. auto.
Qed.

(* ================================================================== *)
(** * Quotes in the prompt of the replay script *)
(* ================================================================== *)

Lemma escape_quotes_escaped (s : string) : forall b,
  quotes_escaped b (escape_quotes s) = true.
Proof.
  induction s as [|c s IH]; intros b; [reflexivity|].
  cbn [escape_quotes]. destruct (Ascii.eqb c "'"%char) eqn:Hc.
  - cbn. apply IH.
  - cbn [quotes_escaped]. rewrite Hc. apply IH.
Qed.

Lemma escape_quotes_counts (s : string) :
  count_char "\"%char (escape_quotes s)
  = (count_char "\"%char s + count_char "'"%char s)%nat
  /\ count_char "'"%char (escape_quotes s) = count_char "'"%char s
  /\ String.length (escape_quotes s)
     = (String.length s + count_char "'"%char s)%nat.
Proof.
  induction s as [|c s [IHb [IHq IHl]]]; [repeat split|].
  cbn [escape_quotes]. destruct (Ascii.eqb c "'"%char) eqn:Hc.
  - apply Ascii.eqb_eq in Hc. subst c. cbn. rewrite IHb, IHq, IHl. lia.
  - cbn [count_char String.length]. rewrite Hc, IHb, IHq, IHl.
    destruct (Ascii.eqb c "\"%char); lia.
Qed.

(** X23. The escaping of the colour name for the prompt of the replay
    script puts a backslash before every quote and changes nothing else:
    in the result every quote stands right behind a backslash, the quotes
    are as many as before, and the only backslashes added are those, one
    per quote, so that a backslash of the name itself is not escaped. *)
Theorem escaped_name_has_no_bare_quote (name : string) :
  script_of_entry (ColorChange name)
  = [ Text "    # --- Color change requested ---";
      CallMoveTo 0 0 false;
      CallInput (escape_quotes name) ]
  /\ quotes_escaped false (escape_quotes name) = true
  /\ count_char "'"%char (escape_quotes name) = count_char "'"%char name
  /\ count_char "\"%char (escape_quotes name)
     = (count_char "\"%char name + count_char "'"%char name)%nat
  /\ String.length (escape_quotes name)
     = (String.length name + count_char "'"%char name)%nat.
Proof.
  destruct (escape_quotes_counts name) as [Hb [Hq Hl]].
  repeat split; auto using escape_quotes_escaped.
Qed.

(* ================================================================== *)
(** * What the driver receives *)
(* ================================================================== *)

Lemma driver_motions_app (w1 w2 : list event) :
  driver_motions (w1 ++ w2) = driver_motions w1 ++ driver_motions w2.
Proof. unfold driver_motions. apply flat_map_app. Qed.

Lemma driver_options_app (w1 w2 : list event) :
  driver_options (w1 ++ w2) = driver_options w1 ++ driver_options w2.
Proof. unfold driver_options. apply flat_map_app. Qed.

Lemma driver_motions_of_motions (ms : list motion) :
  driver_motions (map dev_event_of ms) = ms
  /\ driver_options (map dev_event_of ms) = [].
Proof.
  induction ms as [|m ms [IHm IHo]]; [split; reflexivity|].
  cbn [map]. change (dev_event_of m :: map dev_event_of ms)
    with ([dev_event_of m] ++ map dev_event_of ms).
  rewrite driver_motions_app, driver_options_app, IHm, IHo.
  destruct m; split; reflexivity.
Qed.

Lemma options_kept_by_motions (ms : list motion) : forall p,
  options (do_motions ms p) = options p.
Proof.
  induction ms as [|m ms IH]; intros p; [reflexivity|].
  cbn [do_motions fold_left]. fold (do_motions ms (do_motion m p)).
  rewrite IH. destruct m; cbn [do_motion].
  - unfold moveto. destruct (_pos p); cbn;
      destruct (use_device (geometry p)); reflexivity.
  - unfold lineto. destruct (_pos p); cbn;
      destruct (use_device (geometry p)); reflexivity.
Qed.

(** What one call sends to the driver in device mode. *)
Lemma do_call_driver (c : call) (p : DualPlotter) :
  use_device (geometry p) = true ->
  driver_motions (world (do_call c p))
  = driver_motions (world p) ++ call_motions (geometry p) c
  /\ driver_options (world (do_call c p))
     = driver_options (world p)
       ++ (if is_interactive c then option_assignments (options p) else []).
Proof.
  intros Hmode.
  destruct c; cbn [do_call call_motions is_interactive];
    rewrite ?app_nil_r.
  - unfold interactive, _apply_options, emit, emit_all. rewrite Hmode.
    cbn [world set_world options].
    rewrite !driver_motions_app, !driver_options_app. cbn.
    rewrite !app_nil_r. split; reflexivity.
  - unfold connect, emit. rewrite Hmode. cbn [snd world set_world].
    rewrite driver_motions_app, driver_options_app. cbn.
    rewrite !app_nil_r. split; reflexivity.
  - pose proof (moveto_records x y p) as Hrec. rewrite Hmode in Hrec.
    destruct Hrec as [Hw _].
    rewrite Hw, driver_motions_app, driver_options_app. cbn.
    rewrite !app_nil_r. split; reflexivity.
  - pose proof (lineto_records x y p) as Hrec. rewrite Hmode in Hrec.
    destruct Hrec as [Hw _].
    rewrite Hw, driver_motions_app, driver_options_app. cbn.
    rewrite !app_nil_r. split; reflexivity.
  - rewrite (confirmColorChange_device _ _ _ Hmode).
    pose proof (moveto_records 0 0 p) as Hrec. rewrite Hmode in Hrec.
    destruct Hrec as [Hw _].
    unfold emit_all. cbn [world set_world].
    rewrite Hw, !driver_motions_app, !driver_options_app.
    destruct interrupted; cbn; rewrite !app_nil_r; split; reflexivity.
  - rewrite outlinePage_motions.
    pose proof (do_motions_records (outline_motions do_dots (geometry p)) p)
      as Hrec.
    rewrite Hmode in Hrec. destruct Hrec as [Hw _].
    destruct (driver_motions_of_motions
                (outline_motions do_dots (geometry p))) as [Hm Ho].
    rewrite Hw, driver_motions_app, driver_options_app, Hm, Ho.
    rewrite !app_nil_r. split; reflexivity.
  - split; reflexivity.
  - unfold disconnect, emit. rewrite Hmode. cbn [world set_world].
    rewrite driver_motions_app, driver_options_app. cbn.
    rewrite !app_nil_r. split; reflexivity.
Qed.

Lemma log_motions_of_motions (ms : list motion) :
  log_motions (map entry_of ms) = ms.
Proof.
  induction ms as [|m ms IH]; [reflexivity|].
  cbn [map]. change (entry_of m :: map entry_of ms)
    with ([entry_of m] ++ map entry_of ms).
  rewrite log_motions_app, IH. now destruct m.
Qed.

(** What one call adds to the log in image mode. *)
Lemma do_call_logged (c : call) (p : DualPlotter) :
  use_device (geometry p) = false ->
  log_motions (_command_log (do_call c p))
  = log_motions (_command_log p) ++ call_motions (geometry p) c.
Proof.
  intros Hmode.
  destruct c; cbn [do_call call_motions]; rewrite ?app_nil_r.
  - unfold interactive. now rewrite Hmode.
  - unfold connect. rewrite Hmode. now destruct (_options_snapshot p).
  - pose proof (do_motion_records (PenUp x y) p) as Hrec.
    rewrite Hmode in Hrec. destruct Hrec as [Hl _].
    cbn [do_motion] in Hl. rewrite Hl. apply (log_motions_snoc _ (PenUp x y)).
  - pose proof (do_motion_records (PenDown x y) p) as Hrec.
    rewrite Hmode in Hrec. destruct Hrec as [Hl _].
    cbn [do_motion] in Hl. rewrite Hl.
    apply (log_motions_snoc _ (PenDown x y)).
  - rewrite (confirmColorChange_image _ _ _ Hmode).
    cbn [_command_log log_append set_stroke set_command_log].
    pose proof (do_motion_records (PenUp 0 0) p) as Hrec.
    rewrite Hmode in Hrec. destruct Hrec as [Hl _].
    cbn [do_motion] in Hl.
    rewrite Hl, !log_motions_app. cbn. now rewrite !app_nil_r.
  - rewrite outlinePage_motions.
    pose proof (do_motions_records (outline_motions do_dots (geometry p)) p)
      as Hrec.
    rewrite Hmode in Hrec. destruct Hrec as [Hl _].
    now rewrite Hl, log_motions_app, log_motions_of_motions.
  - reflexivity.
  - now destruct (disconnect_keeps_drawing p Hmode) as [-> _].
Qed.

Lemma call_motions_same_bbox (g1 g2 : page) (c : call) :
  bbox_of g1 = bbox_of g2 -> call_motions g1 c = call_motions g2 c.
Proof.
  unfold bbox_of. intros Hb. injection Hb as Hx0 Hy0 Hx1 Hy1.
  destruct c; cbn [call_motions]; try reflexivity.
  unfold outline_motions. now rewrite Hx0, Hy0, Hx1, Hy1.
Qed.

Lemma device_and_image_in_step (cs : list call) : forall pd pi,
  use_device (geometry pd) = true ->
  use_device (geometry pi) = false ->
  bbox_of (geometry pd) = bbox_of (geometry pi) ->
  driver_motions (world pd) = log_motions (_command_log pi) ->
  driver_motions (world (do_calls cs pd))
  = log_motions (_command_log (do_calls cs pi)).
Proof.
  induction cs as [|c cs IH]; intros pd pi Hd Hi Hb Hsame; [exact Hsame|].
  cbn [do_calls fold_left].
  fold (do_calls cs (do_call c pd)). fold (do_calls cs (do_call c pi)).
  apply IH; rewrite ?do_call_geometry; auto.
  destruct (do_call_driver c pd Hd) as [Hm _].
  rewrite Hm, (do_call_logged c pi Hi), Hsame.
  now rewrite (call_motions_same_bbox _ _ c Hb).
Qed.

(** X24. The simulation records what the hardware would get: for the same
    calls on the same page, the [moveto] and [lineto] calls the driver
    receives in device mode are, in order, the [MoveTo] and [LineTo]
    entries of the log in image mode. *)
Theorem log_records_what_driver_receives
  (ts1 ts2 out1 out2 : string) (d1 d2 lpx1 lpx2 : Z)
  (bbox : R * R * R * R) (cs : list call) :
  driver_motions
    (world (do_calls cs (new_plotter ts1 true out1 d1 bbox lpx1)))
  = log_motions
      (_command_log (do_calls cs (new_plotter ts2 false out2 d2 bbox lpx2))).
Proof.
  apply device_and_image_in_step.
  - destruct bbox as [[[x0 y0] x1] y1]. reflexivity.
  - destruct bbox as [[[x0 y0] x1] y1]. reflexivity.
  - now rewrite !new_plotter_bbox.
  - destruct bbox as [[[x0 y0] x1] y1]. reflexivity.
Qed.

Lemma driver_options_without_interactive (cs : list call) : forall p,
  use_device (geometry p) = true ->
  forallb (fun c => negb (is_interactive c)) cs = true ->
  driver_options (world (do_calls cs p)) = driver_options (world p).
Proof.
  induction cs as [|c cs IH]; intros p Hmode Hcs; [reflexivity|].
  cbn [forallb] in Hcs. apply andb_prop in Hcs. destruct Hcs as [Hc Hcs].
  cbn [do_calls fold_left]. fold (do_calls cs (do_call c p)).
  rewrite IH; [|now rewrite do_call_geometry | exact Hcs].
  destruct (do_call_driver c p Hmode) as [_ Ho]. rewrite Ho.
  apply negb_true_iff in Hc. rewrite Hc. apply app_nil_r.
Qed.

(** X25. In device mode the options reach the driver at [interactive] and
    at no other call: calls without an [interactive] among them, whatever
    is assigned to the options meanwhile, give the driver no option value,
    and an [interactive] gives it the five values the options hold at that
    moment. *)
Theorem options_reach_driver_at_interactive (p : DualPlotter)
  (cs : list call)
  (Hmode : use_device (geometry p) = true)
  (Hcs : forallb (fun c => negb (is_interactive c)) cs = true) :
  driver_options (world (do_calls cs p)) = driver_options (world p)
  /\ driver_options (world (interactive (do_calls cs p)))
     = driver_options (world p)
       ++ option_assignments (options (do_calls cs p)).
Proof.
  pose proof (driver_options_without_interactive cs p Hmode Hcs) as Hsame.
  split; [exact Hsame|].
  assert (Hmode' : use_device (geometry (do_calls cs p)) = true)
    by now rewrite do_calls_geometry.
  destruct (do_call_driver Interactive (do_calls cs p) Hmode') as [_ Ho].
  cbn [do_call is_interactive] in Ho. now rewrite Ho, Hsame.
Qed.

Lemma options_reach_driver_at_interactive_witness :
  let p := default_plotter "0" true in
  let cs := [AssignOptions fast_options; Connect true; Moveto 1 1] in
  driver_options (world (do_calls cs p)) = option_assignments _Options_init
  /\ driver_options (world (interactive (do_calls cs p)))
     = option_assignments _Options_init ++ option_assignments fast_options.
Proof.
  exact (options_reach_driver_at_interactive (default_plotter "0" true)
           [AssignOptions fast_options; Connect true; Moveto 1 1]
           eq_refl eq_refl).
Defined.

(* ================================================================== *)
(** * The glyphs stay in their cell *)
(* ================================================================== *)

Lemma font_items_in_box :
  Forall (fun kv => glyph_in_box (snd kv)) FONT_items.
Proof.
  unfold FONT_items, glyph_in_box.
  repeat (apply Forall_cons || apply Forall_nil);
    unfold in_glyph_box; cbn [fst snd glyph_strokes]; lra.
Qed.

Lemma dict_set_values {V : Type} (P : V -> Prop) (d : list (string * V))
  (k : string) (v : V) :
  Forall (fun kv => P (snd kv)) d -> P v ->
  Forall (fun kv => P (snd kv)) (dict_set d k v).
Proof.
  intros Hd Hv. induction Hd as [|[k0 v0] d H0 Hd IH]; cbn [dict_set].
  - now constructor.
  - destruct (String.eqb k0 k); constructor; auto.
Qed.

Lemma dict_display_values {V : Type} (P : V -> Prop)
  (items : list (string * V)) :
  Forall (fun kv => P (snd kv)) items ->
  Forall (fun kv => P (snd kv)) (dict_display items).
Proof.
  unfold dict_display. intros Hitems.
  assert (Hgen : forall d,
            Forall (fun kv => P (snd kv)) d ->
            Forall (fun kv => P (snd kv))
              (fold_left (fun d' kv => dict_set d' (fst kv) (snd kv))
                 items d)).
  { induction Hitems as [|kv items Hkv Hitems IH]; intros d Hd; [exact Hd|].
    cbn [fold_left]. apply IH. now apply dict_set_values. }
  apply Hgen. constructor.
Qed.

Lemma dict_get_value {V : Type} (P : V -> Prop) (d : list (string * V))
  (k : string) (v : V) :
  Forall (fun kv => P (snd kv)) d -> dict_get d k = Some v -> P v.
Proof.
  induction 1 as [|[k0 v0] d H0 Hd IH]; cbn [dict_get]; [discriminate|].
  destruct (String.eqb k0 k); [now intros [= <-] | exact IH].
Qed.

Lemma every_glyph_in_box (ch : string) :
  glyph_in_box (dict_get_default FONT ch FONT_fallback).
Proof.
  unfold dict_get_default.
  destruct (dict_get FONT ch) as [g|] eqn:Hg.
  - apply (dict_get_value glyph_in_box FONT ch g); [|exact Hg].
    apply dict_display_values. exact font_items_in_box.
  - unfold glyph_in_box, FONT_fallback.
    repeat (apply Forall_cons || apply Forall_nil);
      unfold in_glyph_box; cbn [fst snd]; lra.
Qed.

(** X26. A glyph stays in its cell: for every character, known to the
    font or not, and every height that is not negative, each point
    [draw_glyph] moves or draws to lies between [x] and [x + 0.6 * h]
    across, and between [y - 0.35 * h] and [y + h] upwards, so that with
    a tracking that is not negative no glyph reaches into the next one. *)
Theorem glyph_stays_in_its_cell (ch : string) (x y h : R) (Hh : 0 <= h) :
  Forall
    (fun m =>
       x <= fst (target m) <= x + GLYPH_WIDTH_EM * h
       /\ y - 0.35 * h <= snd (target m) <= y + h)
    (glyph_motions ch x y h).
Proof.
  unfold glyph_motions.
  pose proof (every_glyph_in_box ch) as Hbox. unfold glyph_in_box in Hbox.
  induction Hbox as [|stroke strokes Hstroke Hstrokes IH]; [constructor|].
  cbn [flat_map]. apply Forall_app. split; [|exact IH].
  assert (Hpt : forall pt, in_glyph_box pt ->
            x <= x + fst pt * (GLYPH_WIDTH_EM * h)
              <= x + GLYPH_WIDTH_EM * h
            /\ y - 0.35 * h <= y + snd pt * h <= y + h).
  { intros pt [[Hx0 Hx1] [Hy0 Hy1]]. unfold GLYPH_WIDTH_EM. nra. }
  destruct Hstroke as [|[px py] rest Hfirst Hrest]; [constructor|].
  cbn [polyline_motions]. constructor.
  - exact (Hpt (px, py) Hfirst).
  - apply Forall_map. eapply Forall_impl; [|exact Hrest].
    intros pt Hin. exact (Hpt pt Hin).
Qed.

Lemma glyph_stays_in_its_cell_witness :
  Forall
    (fun m =>
       2 <= fst (target m) <= 2 + GLYPH_WIDTH_EM * 0.5
       /\ 3 - 0.35 * 0.5 <= snd (target m) <= 3 + 0.5)
    (glyph_motions "w" 2 3 0.5).
Proof.
  apply (glyph_stays_in_its_cell "w" 2 3 0.5). lra.
Defined.
